(** * oauth-credentials-generator: the core of [src/index.ts]

    A shallow embedding of [generateRandomString] and
    [generateOAuthCredentials], followed by the properties the specification
    states about them.

    Modelling conventions.
    - A JavaScript [number] is an exact rational, or NaN, or one of the two
      infinities.  The arithmetic the source performs ([/ 2], [* 3], [/ 4],
      [+ 2], [Math.ceil]) is exact on every integer the platform can use as
      a buffer size; above that size a rounded and an exact byte count are
      refused alike.
    - [crypto.randomBytes] reads from an entropy pool carried as explicit
      state; the position in the pool counts the bytes drawn so far.  It
      refuses a size above [Crypto.kMaxLength].
    - A string holds the UTF-8 text of the JavaScript string; no string is
      longer than [Str.kStringMaxLength] UTF-16 code units, and building a
      longer one throws.
    - [throw] is an error result; a computation is a function from the
      entropy state to a completion and the new state. *)

From Stdlib Require Import ZArith QArith Qround NArith List Ascii String Bool Lia.
From Stdlib.Strings Require Byte.
From Stdlib Require Import Lqa.
Import ListNotations.

Local Close Scope Q_scope.
Local Open Scope string_scope.

(* ------------------------------------------------------------------ *)
(** ** JavaScript values *)

Inductive number : Type :=
| Finite (q : Q)
| NaN
| PosInfinity
| NegInfinity.

Definition ofZ (z : Z) : number := Finite (inject_Z z).

(** The dynamic values an option field can hold at run time.  [VObject]
    stands for every value that is neither primitive listed here (objects,
    arrays, functions, symbols, bigints). *)
Inductive value : Type :=
| VUndefined
| VNull
| VBoolean (b : bool)
| VNumber (n : number)
| VString (s : string)
| VObject.

(** [export type EncodingFormat = "hex" | "base64" | "base64url"] *)
Inductive EncodingFormat : Type := hex | base64 | base64url.

Definition EncodingFormat_eqb (a b : EncodingFormat) : bool :=
  match a, b with
  | hex, hex | base64, base64 | base64url, base64url => true
  | _, _ => false
  end.

Definition encodingName (e : EncodingFormat) : string :=
  match e with
  | hex => "hex"
  | base64 => "base64"
  | base64url => "base64url"
  end.

(** [interface OAuthCredentialsOptions]: every field is optional; an omitted
    field reads as [undefined]. *)
Record OAuthCredentialsOptions : Type := mkOptions {
  idPrefix : value;
  idLength : value;
  secretLength : value;
  encoding : value
}.

(** The object literal [{}]. *)
Definition emptyOptions : OAuthCredentialsOptions :=
  mkOptions VUndefined VUndefined VUndefined VUndefined.

(** [interface OAuthCredentials] *)
Record OAuthCredentials : Type := mkCredentials {
  clientId : string;
  clientSecret : string
}.

(* ------------------------------------------------------------------ *)
(** ** Numbers: the operations the source uses *)

Module Num.

(** A binary operator whose right operand is a positive finite constant
    ([x / 2], [x * 3], [x / 4], [x + 2]): NaN and the infinities
    propagate unchanged. *)
Definition lift (f : Q -> Q) (n : number) : number :=
  match n with
  | Finite q => Finite (f q)
  | NaN => NaN
  | PosInfinity => PosInfinity
  | NegInfinity => NegInfinity
  end.

Definition div (n : number) (k : Z) : number := lift (fun q => q / inject_Z k)%Q n.
Definition mul (n : number) (k : Z) : number := lift (fun q => q * inject_Z k)%Q n.
Definition add (n : number) (k : Z) : number := lift (fun q => q + inject_Z k)%Q n.

(** [Math.ceil] *)
Definition ceil (n : number) : number := lift (fun q => inject_Z (Qceiling q)) n.

(** [Number.isInteger] on a number. *)
Definition isInteger (n : number) : bool :=
  match n with
  | Finite q => Qeq_bool (inject_Z (Qfloor q)) q
  | _ => false
  end.

(** [n < k] for an integer constant [k]; false on NaN. *)
Definition ltb (n : number) (k : Z) : bool :=
  match n with
  | Finite q => if Qlt_le_dec q (inject_Z k) then true else false
  | NaN => false
  | PosInfinity => false
  | NegInfinity => true
  end.

(** ToIntegerOrInfinity followed by clamping into [0, len], as
    [String.prototype.substring] does with each of its arguments. *)
Definition clampIndex (n : number) (len : nat) : nat :=
  match n with
  | Finite q =>
      let i := Z.quot (Qnum q) (Zpos (Qden q)) in
      Z.to_nat (Z.min (Z.max i 0) (Z.of_nat len))
  | NaN => 0
  | PosInfinity => len
  | NegInfinity => 0
  end.

End Num.

(* ------------------------------------------------------------------ *)
(** ** Strings *)

Module Str.

(** [s.substring(start, end)] *)
Definition substring (s : string) (start end_ : number) : string :=
  let len := String.length s in
  let finalStart := Num.clampIndex start len in
  let finalEnd := Num.clampIndex end_ len in
  let from := Nat.min finalStart finalEnd in
  let to := Nat.max finalStart finalEnd in
  String.substring from (to - from) s.

(** [s.replace(/c/g, r)] for a one-character pattern [c]. *)
Fixpoint replaceAll (c : ascii) (r : string) (s : string) : string :=
  match s with
  | EmptyString => EmptyString
  | String x s' =>
      if Ascii.eqb x c then r ++ replaceAll c r s'
      else String x (replaceAll c r s')
  end.

(** Every character of [s] satisfies [p]. *)
Fixpoint all (p : ascii -> bool) (s : string) : bool :=
  match s with
  | EmptyString => true
  | String x s' => p x && all p s'
  end.

(** [c] occurs in [s]. *)
Fixpoint mem (c : ascii) (s : string) : bool :=
  match s with
  | EmptyString => false
  | String x s' => Ascii.eqb x c || mem c s'
  end.

(** The character at index [i], a space when out of range. *)
Definition charAt (s : string) (i : N) : ascii :=
  match String.get (N.to_nat i) s with
  | Some c => c
  | None => " "%char
  end.

(** The UTF-16 code units one byte of UTF-8 text accounts for: none for a
    continuation byte, two for the first byte of a four-byte sequence, one
    otherwise. *)
Definition codeUnits (c : ascii) : Z :=
  let n := N_of_ascii c in
  if ((128 <=? n) && (n <=? 191))%N then 0%Z
  else if ((240 <=? n) && (n <=? 247))%N then 2%Z
  else 1%Z.

(** [s.length] *)
Fixpoint jsLength (s : string) : Z :=
  match s with
  | EmptyString => 0%Z
  | String c s' => (codeUnits c + jsLength s')%Z
  end.

(** The longest string of the platform, 0x1fffffe8 code units. *)
Definition kStringMaxLength : Z := 536870888.

End Str.

(* ------------------------------------------------------------------ *)
(** ** Effects: exceptions and the entropy pool *)

(** What can be thrown.  [Error] is what the source itself throws, by
    [throw new Error(message)]; the other two are thrown by the platform and
    kept apart from it: the RangeError of [crypto.randomBytes] on a size it
    refuses and of a string too long to build, and the error of
    [buf.toString] on a text too long, each by its code. *)
Inductive exn : Type :=
| Error (message : string)
| RangeError (code : string)
| PlatformError (code : string).

Inductive completion (A : Type) : Type :=
| Normal (a : A)
| Throw (e : exn).
Arguments Normal {A} a.
Arguments Throw {A} e.

(** The secure random source: an unbounded supply of bytes and the number
    of bytes already handed out. *)
Record Entropy : Type := mkEntropy {
  pool : nat -> Byte.byte;
  drawn : nat
}.

Definition M (A : Type) : Type := Entropy -> completion A * Entropy.

Definition ret {A} (a : A) : M A := fun st => (Normal a, st).
Definition throw {A} (e : exn) : M A := fun st => (Throw e, st).
Definition bind {A B} (m : M A) (k : A -> M B) : M B :=
  fun st =>
    match m st with
    | (Normal a, st') => k a st'
    | (Throw e, st') => (Throw e, st')
    end.

Notation "x <- m ;; k" := (bind m (fun x => k))
  (at level 61, m at next level, right associativity).

(** A string built by concatenation (a template literal, [JSON.stringify]):
    one longer than the platform allows is a RangeError instead. *)
Definition makeString (s : string) : M string :=
  if (Str.kStringMaxLength <? Str.jsLength s)%Z
  then throw (RangeError "Invalid string length")
  else ret s.

(* ------------------------------------------------------------------ *)
(** ** Buffers and their text encodings *)

Module Buffer.

Definition t : Type := list Byte.byte.

Definition hexDigits : string := "0123456789abcdef".
Definition base64Alphabet : string :=
  "ABCDEFGHIJKLMNOPQRSTUVWXYZabcdefghijklmnopqrstuvwxyz0123456789+/".
Definition base64urlAlphabet : string :=
  "ABCDEFGHIJKLMNOPQRSTUVWXYZabcdefghijklmnopqrstuvwxyz0123456789-_".

(** Lowercase hexadecimal, two digits per byte. *)
Fixpoint toHex (b : t) : string :=
  match b with
  | [] => EmptyString
  | x :: b' =>
      let n := Byte.to_N x in
      String (Str.charAt hexDigits (n / 16))
        (String (Str.charAt hexDigits (n mod 16)) (toHex b'))
  end.

(** The [k]-th 6-bit group, counted from the least significant end, of the
    bit string [n]. *)
Definition sextet (alphabet : string) (n : N) (k : N) : ascii :=
  Str.charAt alphabet ((n / 64 ^ k) mod 64).

(** RFC 4648 base 64 over [alphabet]: 24-bit groups become four
    characters; a final group of one or two bytes is padded with zero bits
    to two or three characters and completed with [pad]. *)
Fixpoint toBase64With (alphabet : string) (pad : string) (b : t) : string :=
  match b with
  | [] => EmptyString
  | [x] =>
      let n := (Byte.to_N x * 16)%N in
      String (sextet alphabet n 1) (String (sextet alphabet n 0) (pad ++ pad))
  | [x; y] =>
      let n := ((Byte.to_N x * 256 + Byte.to_N y) * 4)%N in
      String (sextet alphabet n 2)
        (String (sextet alphabet n 1) (String (sextet alphabet n 0) pad))
  | x :: y :: z :: b' =>
      let n := (Byte.to_N x * 65536 + Byte.to_N y * 256 + Byte.to_N z)%N in
      String (sextet alphabet n 3)
        (String (sextet alphabet n 2)
           (String (sextet alphabet n 1)
              (String (sextet alphabet n 0) (toBase64With alphabet pad b'))))
  end.

(** The text of [b] in an encoding. *)
Definition encode (b : t) (enc : EncodingFormat) : string :=
  match enc with
  | hex => toHex b
  | base64 => toBase64With base64Alphabet "=" b
  | base64url => toBase64With base64urlAlphabet "" b
  end.

(** [buf.toString(encoding)]: a text longer than the longest string is
    refused with ERR_STRING_TOO_LONG. *)
Definition toString (b : t) (enc : EncodingFormat) : M string :=
  let text := encode b enc in
  if (Str.kStringMaxLength <? Z.of_nat (String.length text))%Z
  then throw (PlatformError "ERR_STRING_TOO_LONG")
  else ret text.

End Buffer.

Module Crypto.

(** Hand out the next [n] bytes of the pool. *)
Definition draw (n : nat) : M Buffer.t :=
  fun st =>
    (Normal (map (pool st) (seq (drawn st) n)),
     mkEntropy (pool st) (drawn st + n)).

(** The largest buffer of the platform, in bytes. *)
Definition kMaxLength : Z := 2147483647.

(** [crypto.randomBytes(size)]: a size that is NaN, negative or above
    [kMaxLength] is refused with a RangeError before anything is drawn. *)
Definition randomBytes (size : number) : M Buffer.t :=
  match size with
  | Finite q =>
      if Qlt_le_dec q 0 then throw (RangeError "ERR_OUT_OF_RANGE")
      else if Qlt_le_dec (inject_Z kMaxLength) q
           then throw (RangeError "ERR_OUT_OF_RANGE")
           else draw (Z.to_nat (Qfloor q))
  | _ => throw (RangeError "ERR_OUT_OF_RANGE")
  end.

End Crypto.

(* ------------------------------------------------------------------ *)
(** ** [generateRandomString] *)

(** A parameter default: [x = d] in a parameter list or a destructuring
    pattern. *)
Definition paramDefault {A} (d : A) (x : option A) : A :=
  match x with
  | Some a => a
  | None => d
  end.

(** The byte count computed at the head of [generateRandomString]. *)
Definition byteCount (length : number) (encoding : EncodingFormat) : number :=
  if EncodingFormat_eqb encoding hex
  then Num.ceil (Num.div length 2)
  else Num.add (Num.ceil (Num.div (Num.mul length 3) 4)) 2.

Definition generateRandomString
    (length : number) (encoding : option EncodingFormat) : M string :=
  let encoding := paramDefault hex encoding in
  let bytes := byteCount length encoding in
  if EncodingFormat_eqb encoding base64url then
    buf <- Crypto.randomBytes bytes ;;
    text <- Buffer.toString buf base64 ;;
    ret (Str.substring
           (Str.replaceAll "="%char ""
              (Str.replaceAll "/"%char "_" (Str.replaceAll "+"%char "-" text)))
           (ofZ 0) length)
  else
    buf <- Crypto.randomBytes bytes ;;
    text <- Buffer.toString buf encoding ;;
    ret (Str.substring text (ofZ 0) length).

(* ------------------------------------------------------------------ *)
(** ** [generateOAuthCredentials] *)

(** A destructuring default [{ field = d } = options]: it applies exactly
    when the field reads as [undefined]. *)
Definition fieldDefault (d : value) (field : value) : value :=
  match field with
  | VUndefined => d
  | _ => field
  end.

(** [typeof v !== "string" || v.length === 0] throws [message]; past the
    check the value is known to be a string. *)
Definition requireNonEmptyString (v : value) (message : string) : M string :=
  match v with
  | VString s =>
      if Nat.eqb (String.length s) 0 then throw (Error message) else ret s
  | _ => throw (Error message)
  end.

(** [!Number.isInteger(v) || v < 1] throws [message]; [Number.isInteger] is
    false on everything that is not a number, and [||] does not evaluate its
    right operand then.  Past the check the value is known to be a number. *)
Definition requirePositiveInteger (v : value) (message : string) : M number :=
  match v with
  | VNumber n =>
      if negb (Num.isInteger n) || Num.ltb n 1 then throw (Error message)
      else ret n
  | _ => throw (Error message)
  end.

Definition validEncodings : list EncodingFormat := [hex; base64; base64url].

(** [list.includes(v)]: the member of [list] that [v] is equal to, if any.
    A member is a string, so only a string value can be equal to it. *)
Definition includes (list : list EncodingFormat) (v : value) : option EncodingFormat :=
  match v with
  | VString s => find (fun e => String.eqb (encodingName e) s) list
  | _ => None
  end.

Definition requireIncluded (list : list EncodingFormat) (v : value) (message : string)
  : M EncodingFormat :=
  match includes list v with
  | Some e => ret e
  | None => throw (Error message)
  end.

Definition generateOAuthCredentials
    (options : option OAuthCredentialsOptions) : M OAuthCredentials :=
  let options := paramDefault emptyOptions options in
  let idPrefix := fieldDefault (VString "oauth") (idPrefix options) in
  let idLength := fieldDefault (VNumber (ofZ 24)) (idLength options) in
  let secretLength := fieldDefault (VNumber (ofZ 48)) (secretLength options) in
  let encoding := fieldDefault (VString "base64url") (encoding options) in
  idPrefix <- requireNonEmptyString idPrefix "idPrefix must be a non-empty string" ;;
  idLength <- requirePositiveInteger idLength "idLength must be a positive integer" ;;
  secretLength <-
    requirePositiveInteger secretLength "secretLength must be a positive integer" ;;
  encoding <-
    requireIncluded validEncodings encoding
      "encoding must be one of: hex, base64, base64url" ;;
  randomPart <- generateRandomString idLength (Some encoding) ;;
  clientId <- makeString (idPrefix ++ "_" ++ randomPart) ;;
  clientSecret <- generateRandomString secretLength (Some encoding) ;;
  ret (mkCredentials clientId clientSecret).

(* ------------------------------------------------------------------ *)
(** ** Vocabulary of the specification *)

(** The number [n] is the integer [z]. *)
Definition IsInt (n : number) (z : Z) : Prop :=
  match n with
  | Finite q => (q == inject_Z z)%Q
  | _ => False
  end.

(** Rounded-up quotient of integers, [ceil(a / b)] for [b > 0]. *)
Definition ceilDiv (a b : Z) : Z := (- ((- a) / b))%Z.

(** [0-9a-f] *)
Definition isHexChar (c : ascii) : bool :=
  let n := N_of_ascii c in
  ((48 <=? n) && (n <=? 57) || (97 <=? n) && (n <=? 102))%N.

(** [A-Za-z0-9] *)
Definition isAlphaNum (c : ascii) : bool :=
  let n := N_of_ascii c in
  ((48 <=? n) && (n <=? 57) || (65 <=? n) && (n <=? 90)
   || (97 <=? n) && (n <=? 122))%N.

(** [A-Za-z0-9_-] *)
Definition isBase64urlChar (c : ascii) : bool :=
  isAlphaNum c || Ascii.eqb c "_" || Ascii.eqb c "-".

(** [A-Za-z0-9+/] *)
Definition isBase64Char (c : ascii) : bool :=
  isAlphaNum c || Ascii.eqb c "+" || Ascii.eqb c "/".

(** The value of a field once the documented default [d] stands in for an
    omitted one. *)
Definition orDefault (v d : value) : value :=
  match v with
  | VUndefined => d
  | _ => v
  end.

(** The options with every omitted field replaced by its documented
    default. *)
Definition effective (o : OAuthCredentialsOptions) : OAuthCredentialsOptions :=
  mkOptions
    (orDefault (idPrefix o) (VString "oauth"))
    (orDefault (idLength o) (VNumber (ofZ 24)))
    (orDefault (secretLength o) (VNumber (ofZ 48)))
    (orDefault (encoding o) (VString "base64url")).

Definition NonEmptyString (v : value) : Prop :=
  exists s, v = VString s /\ s <> "".

Definition PositiveInteger (v : value) : Prop :=
  exists n z, v = VNumber n /\ IsInt n z /\ (1 <= z)%Z.

Definition KnownEncoding (v : value) : Prop :=
  v = VString "hex" \/ v = VString "base64" \/ v = VString "base64url".

(** The padding that closes the encoding of [b]. *)
Fixpoint tailPadding (pad : string) (b : Buffer.t) : string :=
  match b with
  | [] => ""
  | [_] => pad ++ pad
  | [_; _] => pad
  | _ :: _ :: _ :: b' => tailPadding pad b'
  end.

(** The three replacements [generateRandomString] chains for base64url. *)
Definition urlSafe (s : string) : string :=
  Str.replaceAll "="%char ""
    (Str.replaceAll "/"%char "_" (Str.replaceAll "+"%char "-" s)).

(** The byte count of the specification: [ceil(length / 2)] for hex,
    [ceil(length * 3 / 4) + 2] for the base 64 variants. *)
Definition byteCountZ (length : Z) (enc : EncodingFormat) : Z :=
  match enc with
  | hex => ceilDiv length 2
  | base64 | base64url => (ceilDiv (length * 3) 4 + 2)%Z
  end.

(** The text [generateRandomString] truncates: the encoding of the buffer,
    made URL-safe for base64url. *)
Definition encodedText (enc : EncodingFormat) (buf : Buffer.t) : string :=
  match enc with
  | base64url => urlSafe (Buffer.encode buf base64)
  | _ => Buffer.encode buf enc
  end.

(** The text [buf.toString] is asked for: the base 64 variants both ask for
    standard base 64. *)
Definition rawText (enc : EncodingFormat) (buf : Buffer.t) : string :=
  match enc with
  | base64url => Buffer.encode buf base64
  | _ => Buffer.encode buf enc
  end.

(** The length of that text for [k] bytes: two characters a byte in hex,
    four for every three bytes or part of them in base 64. *)
Definition rawLength (enc : EncodingFormat) (k : Z) : Z :=
  match enc with
  | hex => (2 * k)%Z
  | base64 | base64url => (4 * ceilDiv k 3)%Z
  end.

(** The longest length an encoding can serve: beyond it the text to cut
    from is longer than the longest string. *)
Definition longestLength (enc : EncodingFormat) : Z :=
  match enc with
  | hex => 536870888%Z
  | base64 | base64url => 536870885%Z
  end.

(** The entropy pool after [k] more bytes. *)
Definition advance (st : Entropy) (k : nat) : Entropy :=
  mkEntropy (pool st) (drawn st + k).

(** The bytes the next draw of [k] bytes hands out. *)
Definition nextBytes (st : Entropy) (k : nat) : Buffer.t :=
  map (pool st) (seq (drawn st) k).

(** The messages of the four validation errors. *)
Definition idPrefixMessage : string := "idPrefix must be a non-empty string".
Definition idLengthMessage : string := "idLength must be a positive integer".
Definition secretLengthMessage : string := "secretLength must be a positive integer".
Definition encodingMessage : string := "encoding must be one of: hex, base64, base64url".

(** What [generateOAuthCredentials] does once its checks have passed, with
    the prefix [p], the lengths [n1] and [n2] and the encoding [enc]. *)
Definition assemble (p : string) (n1 n2 : number) (enc : EncodingFormat)
  : M OAuthCredentials :=
  randomPart <- generateRandomString n1 (Some enc) ;;
  clientId <- makeString (p ++ "_" ++ randomPart) ;;
  clientSecret <- generateRandomString n2 (Some enc) ;;
  ret (mkCredentials clientId clientSecret).

(** A call that returns the pair made of the prefix [p] and of two
    successive results of [generateRandomString], on [n1] and then on [n2],
    in the encoding [enc]. *)
Definition Generates (options : option OAuthCredentialsOptions) (st : Entropy)
    (p : string) (n1 n2 : number) (enc : EncodingFormat) : Prop :=
  exists r1 st1 r2 st2,
    generateRandomString n1 (Some enc) st = (Normal r1, st1) /\
    generateRandomString n2 (Some enc) st1 = (Normal r2, st2) /\
    generateOAuthCredentials options st =
    (Normal {| clientId := p ++ "_" ++ r1; clientSecret := r2 |}, st2).

(** A computation that never throws an [Error] of the source's own. *)
Definition NoError {A} (m : M A) : Prop :=
  forall st message, fst (m st) <> Throw (Error message).

(** A call that is refused before anything is drawn from the pool. *)
Definition RejectedBeforeDrawing {A} (m : M A) (st : Entropy) : Prop :=
  exists ex, m st = (Throw ex, st).

(** A deterministic entropy pool for the worked examples. *)
Definition samplePool (i : nat) : Byte.byte :=
  match Byte.of_N (N.of_nat ((i * 37 + 250) mod 256)) with
  | Some b => b
  | None => Byte.x00
  end.

Definition sampleEntropy : Entropy := mkEntropy samplePool 0.

(* ------------------------------------------------------------------ *)
(** ** The command line: [bin/generate-oauth.ts]

    A string holds the UTF-8 text of the JavaScript string.  The console is
    the list of the texts written, oldest first, each tagged with its
    stream.  [process.exit] ends the run with a status, past every [catch]. *)

(** The text of the bytes [codes]. *)
Definition utf8 (codes : list N) : string :=
  string_of_list_ascii (map ascii_of_N codes).

Definition newline : string := utf8 [10%N].
Definition doubleQuote : string := utf8 [34%N].
Definition backslash : string := utf8 [92%N].

(** What the platform supplies to the command line: the text [console.log]
    prints for the [version] field of [package.json] ([None] when reading or
    parsing the file throws), and the message of an error the platform
    raises, by its code. *)
Record Platform : Type := mkPlatform {
  versionText : option string;
  platformMessage : string -> string
}.

(** [error.message] *)
Definition messageOf (pf : Platform) (e : exn) : string :=
  match e with
  | Error message => message
  | RangeError code => platformMessage pf code
  | PlatformError code => platformMessage pf code
  end.

Inductive output : Type :=
| Stdout (text : string)     (* one [console.log] *)
| Stderr (text : string).    (* one [console.error] *)

Record World : Type := mkWorld {
  entropy : Entropy;
  console : list output
}.

Inductive outcome (A : Type) : Type :=
| Returned (a : A)
| Thrown (e : exn)
| Exited (code : Z).
Arguments Returned {A} a.
Arguments Thrown {A} e.
Arguments Exited {A} code.

Definition P (A : Type) : Type := World -> outcome A * World.

Definition pret {A} (a : A) : P A := fun w => (Returned a, w).
Definition pbind {A B} (m : P A) (k : A -> P B) : P B :=
  fun w =>
    match m w with
    | (Returned a, w') => k a w'
    | (Thrown e, w') => (Thrown e, w')
    | (Exited code, w') => (Exited code, w')
    end.

Notation "x <-- m ;; k" := (pbind m (fun x => k))
  (at level 61, m at next level, right associativity).
Notation "m ;;; k" := (pbind m (fun _ => k))
  (at level 61, right associativity).

(** A computation of the library run from the command line: it sees the
    entropy pool only. *)
Definition lift {A} (m : M A) : P A :=
  fun w =>
    match m (entropy w) with
    | (Normal a, st) => (Returned a, mkWorld st (console w))
    | (Throw e, st) => (Thrown e, mkWorld st (console w))
    end.

Definition console_log (text : string) : P unit :=
  fun w => (Returned tt, mkWorld (entropy w) (console w ++ [Stdout text])).

Definition console_error (text : string) : P unit :=
  fun w => (Returned tt, mkWorld (entropy w) (console w ++ [Stderr text])).

Definition process_exit {A} (code : Z) : P A := fun w => (Exited code, w).

(** [try { body } catch (error) { handler }] *)
Definition tryCatch {A} (body : P A) (handler : exn -> P A) : P A :=
  fun w =>
    match body w with
    | (Thrown e, w') => handler e w'
    | r => r
    end.

(** Truthiness, as [if (v)] tests it. *)
Definition truthy (v : value) : bool :=
  match v with
  | VUndefined | VNull => false
  | VBoolean b => b
  | VNumber (Finite q) => negb (Qeq_bool q 0)
  | VNumber NaN => false
  | VNumber _ => true
  | VString s => negb (String.eqb s "")
  | VObject => true
  end.

(** *** [parseInt(text, 10)] *)

Module ParseInt.

(** The one-byte white space and line terminators: TAB, LF, VT, FF, CR and
    the space. *)
Definition isSpace1 (c : ascii) : bool :=
  let n := N_of_ascii c in
  ((9 <=? n) && (n <=? 13) || (n =? 32))%N.

(** U+00A0. *)
Definition isSpace2 (c d : ascii) : bool :=
  ((N_of_ascii c =? 194) && (N_of_ascii d =? 160))%N.

(** U+1680, U+2000 to U+200A, U+2028, U+2029, U+202F, U+205F, U+3000 and
    U+FEFF. *)
Definition isSpace3 (c d e : ascii) : bool :=
  let c := N_of_ascii c in
  let d := N_of_ascii d in
  let e := N_of_ascii e in
  ((c =? 225) && (d =? 154) && (e =? 128)
   || (c =? 226) && (d =? 128)
      && ((128 <=? e) && (e <=? 138) || (e =? 168) || (e =? 169) || (e =? 175))
   || (c =? 226) && (d =? 129) && (e =? 159)
   || (c =? 227) && (d =? 128) && (e =? 128)
   || (c =? 239) && (d =? 187) && (e =? 191))%N.

(** The text without its leading white space. *)
Fixpoint trimStart (s : string) : string :=
  match s with
  | EmptyString => s
  | String c s1 =>
      if isSpace1 c then trimStart s1
      else
        match s1 with
        | EmptyString => s
        | String d s2 =>
            if isSpace2 c d then trimStart s2
            else
              match s2 with
              | EmptyString => s
              | String e s3 => if isSpace3 c d e then trimStart s3 else s
              end
        end
  end.

Definition isDigit (c : ascii) : bool :=
  let n := N_of_ascii c in ((48 <=? n) && (n <=? 57))%N.

Definition digitValue (c : ascii) : Z := (Z.of_N (N_of_ascii c) - 48)%Z.

(** The decimal digits the text starts with. *)
Fixpoint leadingDigits (s : string) : string :=
  match s with
  | EmptyString => EmptyString
  | String c s' => if isDigit c then String c (leadingDigits s') else EmptyString
  end.

(** The integer a digit string denotes, continuing from [acc]. *)
Fixpoint decimal (acc : Z) (digits : string) : Z :=
  match digits with
  | EmptyString => acc
  | String c digits' => decimal (10 * acc + digitValue c)%Z digits'
  end.

(** The number nearest to the integer [m], at least 0, among those a
    double holds, ties going to the even one; infinite from 2^1024 on. *)
Definition nearestDouble (m : Z) : number :=
  if (m <? 2 ^ 53)%Z then ofZ m
  else
    let e := (Z.log2 m - 52)%Z in
    let q := Z.shiftr m e in
    let r := (m - Z.shiftl q e)%Z in
    let half := Z.shiftl 1 (e - 1) in
    let q' :=
      if (half <? r)%Z || ((r =? half)%Z && Z.odd q) then (q + 1)%Z else q in
    let v := Z.shiftl q' e in
    if (2 ^ 1024 <=? v)%Z then PosInfinity else ofZ v.

Definition negate (n : number) : number :=
  match n with
  | Finite q => Finite (- q)
  | NaN => NaN
  | PosInfinity => NegInfinity
  | NegInfinity => PosInfinity
  end.

Definition parseInt (text : string) : number :=
  let S := trimStart text in
  let negative :=
    match S with
    | String c _ => Ascii.eqb c "-"
    | EmptyString => false
    end in
  let S :=
    match S with
    | String c rest => if Ascii.eqb c "+" || Ascii.eqb c "-" then rest else S
    | EmptyString => S
    end in
  match leadingDigits S with
  | EmptyString => NaN
  | digits =>
      let value := nearestDouble (decimal 0 digits) in
      if negative then negate value else value
  end.

(** [parseInt(args[i], 10)] where [args[i]] may be off the end of the
    array: [undefined] is read as the text "undefined". *)
Definition parseIntArg (arg : option string) : number :=
  parseInt (match arg with Some text => text | None => "undefined" end).

End ParseInt.

(** *** [JSON.stringify] of the credentials *)

Module JSON.

(** One character inside a JSON string. *)
Definition quoteChar (c : ascii) : string :=
  let n := N_of_ascii c in
  if (n =? 34)%N then backslash ++ doubleQuote
  else if (n =? 92)%N then backslash ++ backslash
  else if (n =? 8)%N then backslash ++ "b"
  else if (n =? 9)%N then backslash ++ "t"
  else if (n =? 10)%N then backslash ++ "n"
  else if (n =? 12)%N then backslash ++ "f"
  else if (n =? 13)%N then backslash ++ "r"
  else if (n <? 32)%N then
    backslash ++ "u00"
    ++ String (Str.charAt Buffer.hexDigits (n / 16))
         (String (Str.charAt Buffer.hexDigits (n mod 16)) "")
  else String c "".

Fixpoint quoteBody (s : string) : string :=
  match s with
  | EmptyString => EmptyString
  | String c s' => quoteChar c ++ quoteBody s'
  end.

Definition quote (s : string) : string := doubleQuote ++ quoteBody s ++ doubleQuote.

(** [JSON.stringify(credentials, null, 2)] *)
Definition stringify (credentials : OAuthCredentials) : string :=
  "{" ++ newline
  ++ "  " ++ quote "clientId" ++ ": " ++ quote (clientId credentials) ++ "," ++ newline
  ++ "  " ++ quote "clientSecret" ++ ": " ++ quote (clientSecret credentials) ++ newline
  ++ "}".

End JSON.

(** *** [parseArgs], [showHelp], [showVersion], [main] *)

(** [interface CliOptions extends OAuthCredentialsOptions]: the options of
    the generator and the [json] flag beside them. *)
Record CliOptions : Type := mkCliOptions {
  json : value;
  generatorOptions : OAuthCredentialsOptions
}.

Definition noCliOptions : CliOptions := mkCliOptions VUndefined emptyOptions.

Definition withIdPrefix (v : value) (o : CliOptions) : CliOptions :=
  let g := generatorOptions o in
  mkCliOptions (json o) (mkOptions v (idLength g) (secretLength g) (encoding g)).

Definition withIdLength (v : value) (o : CliOptions) : CliOptions :=
  let g := generatorOptions o in
  mkCliOptions (json o) (mkOptions (idPrefix g) v (secretLength g) (encoding g)).

Definition withSecretLength (v : value) (o : CliOptions) : CliOptions :=
  let g := generatorOptions o in
  mkCliOptions (json o) (mkOptions (idPrefix g) (idLength g) v (encoding g)).

Definition withEncoding (v : value) (o : CliOptions) : CliOptions :=
  let g := generatorOptions o in
  mkCliOptions (json o) (mkOptions (idPrefix g) (idLength g) (secretLength g) v).

Definition withJson (v : value) (o : CliOptions) : CliOptions :=
  mkCliOptions v (generatorOptions o).

(** [args[i]] as a value: [undefined] off the end of the array. *)
Definition argValue (arg : option string) : value :=
  match arg with
  | Some text => VString text
  | None => VUndefined
  end.

Definition helpText : string :=
  String.concat newline
    [ "";
      "Usage: generate-oauth [options]";
      "";
      "Options:";
      "  -p, --prefix <string>          Prefix for OAuth ID (default: 'oauth')";
      "  --id-length <number>           Length of random part of ID (default: 24)";
      "  --secret-length <number>       Length of secret (default: 48)";
      "  --encoding <string>            Encoding format: 'hex', 'base64', 'base64url' (default: 'base64url')";
      "  --json                         Output as JSON";
      "  -h, --help                     Show this help message";
      "  -v, --version                  Show version number";
      "";
      "Examples:";
      "  generate-oauth";
      "  generate-oauth --prefix myapp";
      "  generate-oauth --prefix prod --id-length 32 --secret-length 64";
      "  generate-oauth --encoding hex --json";
      "  " ].

Definition showHelp : P unit := console_log helpText.

Definition showVersion (pf : Platform) : P unit :=
  match versionText pf with
  | Some text => console_log text
  | None => console_log "Version information not available"
  end.

(** The body of the [for] loop of [parseArgs], from the argument at the
    head of [args] on; an option that takes a value reads it from the next
    position, present or not, and the loop resumes after it. *)
Fixpoint parseArgsFrom (pf : Platform) (args : list string) (options : CliOptions)
  : P CliOptions :=
  match args with
  | [] => pret options
  | arg :: rest =>
      if String.eqb arg "--prefix" || String.eqb arg "-p" then
        match rest with
        | [] => pret (withIdPrefix (argValue None) options)
        | v :: rest' =>
            parseArgsFrom pf rest' (withIdPrefix (argValue (Some v)) options)
        end
      else if String.eqb arg "--id-length" then
        match rest with
        | [] => pret (withIdLength (VNumber (ParseInt.parseIntArg None)) options)
        | v :: rest' =>
            parseArgsFrom pf rest'
              (withIdLength (VNumber (ParseInt.parseIntArg (Some v))) options)
        end
      else if String.eqb arg "--secret-length" then
        match rest with
        | [] => pret (withSecretLength (VNumber (ParseInt.parseIntArg None)) options)
        | v :: rest' =>
            parseArgsFrom pf rest'
              (withSecretLength (VNumber (ParseInt.parseIntArg (Some v))) options)
        end
      else if String.eqb arg "--encoding" then
        match rest with
        | [] => pret (withEncoding (argValue None) options)
        | v :: rest' =>
            parseArgsFrom pf rest' (withEncoding (argValue (Some v)) options)
        end
      else if String.eqb arg "--json" then
        parseArgsFrom pf rest (withJson (VBoolean true) options)
      else if String.eqb arg "--help" || String.eqb arg "-h" then
        showHelp ;;; process_exit 0
      else if String.eqb arg "--version" || String.eqb arg "-v" then
        showVersion pf ;;; process_exit 0
      else
        console_error ("Unknown option: " ++ arg) ;;;
        console_log "Use --help for usage information" ;;;
        process_exit 1
  end.

Definition parseArgs (pf : Platform) (args : list string) : P CliOptions :=
  parseArgsFrom pf args noCliOptions.

Definition generatedHeader : string :=
  newline ++ utf8 [240; 159; 148; 144]%N ++ " OAuth Credentials Generated:" ++ newline.

Definition securityReminder : string :=
  newline ++ utf8 [226; 154; 160; 239; 184; 143]%N
  ++ "  Store these securely! The secret should never be committed to version control."
  ++ newline.

(** [main], run on [process.argv]. *)
Definition main (pf : Platform) (argv : list string) : P unit :=
  tryCatch
    (let args := skipn 2 argv in
     parsed <-- parseArgs pf args ;;
     let json := json parsed in
     let generatorOptions := generatorOptions parsed in
     credentials <-- lift (generateOAuthCredentials (Some generatorOptions)) ;;
     if truthy json then
       text <-- lift (makeString (JSON.stringify credentials)) ;;
       console_log text
     else
       console_log generatedHeader ;;;
       idLine <-- lift (makeString ("Client ID:     " ++ clientId credentials)) ;;
       console_log idLine ;;;
       secretLine <--
         lift (makeString ("Client Secret: " ++ clientSecret credentials)) ;;
       console_log secretLine ;;;
       console_log securityReminder)
    (fun error =>
       console_error ("Error: " ++ messageOf pf error) ;;;
       process_exit 1).

(** *** [generateSafeCredentials] of the usage examples *)

(** The credentials, or [None] for [null] after the failure is written to
    the error stream. *)
Definition generateSafeCredentials (pf : Platform) (options : OAuthCredentialsOptions)
  : P (option OAuthCredentials) :=
  tryCatch
    (credentials <-- lift (generateOAuthCredentials (Some options)) ;;
     pret (Some credentials))
    (fun error =>
       console_error ("Failed to generate credentials: " ++ messageOf pf error) ;;;
       pret None).

(** The byte count on a finite length, as an integer. *)
Definition byteCountQ (q : Q) (enc : EncodingFormat) : Z :=
  match enc with
  | hex => Qceiling (q / inject_Z 2)
  | base64 | base64url => (Qceiling (q * inject_Z 3 / inject_Z 4) + 2)%Z
  end.

(** The characters an encoding writes, padding apart. *)
Definition charClass (enc : EncodingFormat) : ascii -> bool :=
  match enc with
  | hex => isHexChar
  | base64 => isBase64Char
  | base64url => isBase64urlChar
  end.

(** Arguments made of complete settings only: each option that takes a
    value is followed by one, whatever it is, and [--json] stands alone. *)
Inductive Settings : list string -> Prop :=
| Settings_none : Settings []
| Settings_prefix v rest : Settings rest -> Settings ("--prefix" :: v :: rest)
| Settings_p v rest : Settings rest -> Settings ("-p" :: v :: rest)
| Settings_idLength v rest : Settings rest -> Settings ("--id-length" :: v :: rest)
| Settings_secretLength v rest :
    Settings rest -> Settings ("--secret-length" :: v :: rest)
| Settings_encoding v rest : Settings rest -> Settings ("--encoding" :: v :: rest)
| Settings_json rest : Settings rest -> Settings ("--json" :: rest).

(** Every word [parseArgs] has a case for. *)
Definition knownFlags : list string :=
  [ "--prefix"; "-p"; "--id-length"; "--secret-length"; "--encoding"; "--json";
    "--help"; "-h"; "--version"; "-v" ].

(** The text of a run, written after [console]. *)
Definition wrote (w : World) (texts : list output) : World :=
  mkWorld (entropy w) (console w ++ texts).


(** A platform for the worked examples. *)
Definition samplePlatform : Platform := mkPlatform (Some "1.0.0") (fun code => code).

Definition sampleWorld : World := mkWorld sampleEntropy [].

(* ------------------------------------------------------------------ *)
(** ** The embedding on concrete inputs *)

Section Examples.

(** The bytes of the ASCII text [s]. *)
Let bytesOf (s : string) : Buffer.t := list_byte_of_string s.

Example base64_three_bytes : Buffer.encode (bytesOf "Man") base64 = "TWFu".
Proof. reflexivity. Qed.

Example base64_two_bytes : Buffer.encode (bytesOf "Ma") base64 = "TWE=".
Proof. reflexivity. Qed.

Example base64_one_byte : Buffer.encode (bytesOf "M") base64 = "TQ==".
Proof. reflexivity. Qed.

Example base64url_no_padding :
  Buffer.encode [Byte.xff; Byte.xff; Byte.xfe; Byte.xfb] base64 = "///++w==" /\
  Buffer.encode [Byte.xff; Byte.xff; Byte.xfe; Byte.xfb] base64url = "___--w".
Proof. split; reflexivity. Qed.

Example hex_lowercase : Buffer.encode (bytesOf "Man~") hex = "4d616e7e".
Proof. reflexivity. Qed.

Example substring_truncates :
  Str.substring "abcdef" (ofZ 0) (Finite (7 # 2)) = "abc" /\
  Str.substring "abcdef" (ofZ 0) (ofZ (-2)) = "" /\
  Str.substring "abcdef" (ofZ 0) (ofZ 9) = "abcdef" /\
  Str.substring "abcdef" (ofZ 0) NaN = "".
Proof. repeat split; reflexivity. Qed.

Example random_hex_5 :
  fst (generateRandomString (ofZ 5) None sampleEntropy) = Normal "fa1f4" /\
  drawn (snd (generateRandomString (ofZ 5) None sampleEntropy)) = 3.
Proof. split; vm_compute; reflexivity. Qed.

Example random_base64url_5 :
  fst (generateRandomString (ofZ 5) (Some base64url) sampleEntropy) = Normal "-h9Ea" /\
  drawn (snd (generateRandomString (ofZ 5) (Some base64url) sampleEntropy)) = 6.
Proof. split; vm_compute; reflexivity. Qed.

Example negative_byte_count :
  fst (generateRandomString (ofZ (-3)) (Some hex) sampleEntropy) =
  Throw (RangeError "ERR_OUT_OF_RANGE").
Proof. vm_compute; reflexivity. Qed.

Example default_call :
  fst (generateOAuthCredentials None sampleEntropy) =
  Normal {| clientId := "oauth_-h9EaY6z2P0iR2yRttsAJUpv";
            clientSecret := "3gMoTXKXvOEGK1B1mr_kCS5TeJ3C5wwxVnugxeoPNFl-o8jt" |} /\
  drawn (snd (generateOAuthCredentials None sampleEntropy)) = 20 + 38.
Proof. split; vm_compute; reflexivity. Qed.

Example fractional_idLength :
  fst (generateOAuthCredentials
         (Some (mkOptions VUndefined (VNumber (Finite (3 # 2))) VUndefined VUndefined))
         sampleEntropy) =
  Throw (Error "idLength must be a positive integer").
Proof. vm_compute; reflexivity. Qed.

Example null_is_not_omitted :
  fst (generateOAuthCredentials
         (Some (mkOptions VNull VUndefined VUndefined VUndefined)) sampleEntropy) =
  Throw (Error "idPrefix must be a non-empty string").
Proof. vm_compute; reflexivity. Qed.

End Examples.

(* ------------------------------------------------------------------ *)
(** ** Strings: prefixes, membership, replacement *)

Section StringFacts.

Lemma length_append (a b : string) :
  String.length (a ++ b) = String.length a + String.length b.
Proof. induction a as [|x a IH]; simpl; [reflexivity | now rewrite IH]. Qed.

Lemma append_assoc (a b c : string) : a ++ b ++ c = (a ++ b) ++ c.
Proof. induction a as [|x a IH]; simpl; [reflexivity | now rewrite IH]. Qed.

Lemma prefix_length (k : nat) (s : string) :
  k <= String.length s -> String.length (String.substring 0 k s) = k.
Proof.
  revert s; induction k as [|k IH]; intros s H.
  - destruct s; reflexivity.
  - destruct s as [|x s]; simpl in *; [lia|].
    rewrite IH; [reflexivity | lia].
Qed.

Lemma prefix_append (k : nat) (a b : string) :
  k <= String.length a ->
  String.substring 0 k (a ++ b) = String.substring 0 k a.
Proof.
  revert a; induction k as [|k IH]; intros a H.
  - destruct a; destruct b; reflexivity.
  - destruct a as [|x a]; simpl in *; [lia|].
    rewrite IH; [reflexivity | lia].
Qed.

Lemma prefix_all (p : ascii -> bool) (k : nat) (s : string) :
  Str.all p s = true -> Str.all p (String.substring 0 k s) = true.
Proof.
  revert s; induction k as [|k IH]; intros s H.
  - destruct s; reflexivity.
  - destruct s as [|x s]; simpl in *; [reflexivity|].
    apply andb_true_iff in H as [Hx Hs].
    now rewrite Hx, IH.
Qed.

Lemma all_not_mem (p : ascii -> bool) (c : ascii) (s : string) :
  p c = false -> Str.all p s = true -> Str.mem c s = false.
Proof.
  intros Hc; induction s as [|x s IH]; simpl; [reflexivity|].
  intros H; apply andb_true_iff in H as [Hx Hs].
  rewrite (IH Hs), orb_false_r.
  destruct (Ascii.eqb_spec x c) as [->|]; [congruence | reflexivity].
Qed.

Lemma replaceAll_append (c : ascii) (r a b : string) :
  Str.replaceAll c r (a ++ b) = Str.replaceAll c r a ++ Str.replaceAll c r b.
Proof.
  induction a as [|x a IH]; simpl; [reflexivity|].
  rewrite IH; destruct (Ascii.eqb x c); simpl; [|reflexivity].
  now rewrite append_assoc.
Qed.

End StringFacts.

(* ------------------------------------------------------------------ *)
(** ** Numbers: integers through the source's arithmetic *)

Section NumberFacts.

Lemma ceilDiv_spec (a b : Z) :
  (0 < b)%Z -> (a <= b * ceilDiv a b < a + b)%Z.
Proof.
  intros Hb; unfold ceilDiv.
  pose proof (Z.div_mod (- a) b ltac:(lia)) as E.
  pose proof (Z.mod_pos_bound (- a) b Hb) as B.
  lia.
Qed.

Lemma Qceiling_div (q : Q) (z k : Z) :
  (0 < k)%Z -> (q == inject_Z z)%Q ->
  Qceiling (q / inject_Z k) = ceilDiv z k.
Proof.
  intros Hk E.
  rewrite (Qceiling_comp _ (inject_Z z / inject_Z k)) by (now rewrite E).
  destruct k as [|k|k]; try lia.
  unfold ceilDiv, Qceiling, Qfloor, Qopp, Qdiv, Qmult, Qinv, inject_Z; simpl.
  now rewrite Z.mul_1_r.
Qed.

Lemma isInteger_IsInt (n : number) :
  Num.isInteger n = true <-> exists z, IsInt n z.
Proof.
  destruct n as [q| | |]; simpl;
    try (split; [discriminate | intros [z []]]).
  rewrite Qeq_bool_iff; split.
  - intros E; exists (Qfloor q); now symmetry.
  - intros [z E]. rewrite (Qfloor_comp _ _ E), Qfloor_Z. now symmetry.
Qed.

Lemma ltb_IsInt (n : number) (z k : Z) :
  IsInt n z -> Num.ltb n k = (z <? k)%Z.
Proof.
  destruct n as [q| | |]; simpl; try contradiction; intros E.
  destruct (Qlt_le_dec q (inject_Z k)) as [H|H];
    rewrite E in H; [rewrite <- Zlt_Qlt in H | rewrite <- Zle_Qle in H];
    symmetry; [apply Z.ltb_lt | apply Z.ltb_ge]; assumption.
Qed.

Lemma clampIndex_IsInt (n : number) (z : Z) (len : nat) :
  IsInt n z -> (0 <= z)%Z ->
  Num.clampIndex n len = Nat.min (Z.to_nat z) len.
Proof.
  destruct n as [q| | |]; simpl; try contradiction; intros E Hz.
  unfold Qeq in E; simpl in E; rewrite Z.mul_1_r in E.
  rewrite E, Z.quot_mul by lia. lia.
Qed.

Lemma randomBytes_IsInt (n : number) (z : Z) (st : Entropy) :
  IsInt n z -> (0 <= z <= Crypto.kMaxLength)%Z ->
  Crypto.randomBytes n st = Crypto.draw (Z.to_nat z) st.
Proof.
  destruct n as [q| | |]; simpl; try contradiction; intros E Hz.
  destruct (Qlt_le_dec q 0) as [H|H].
  - rewrite E in H. change 0%Q with (inject_Z 0) in H.
    rewrite <- Zlt_Qlt in H. lia.
  - destruct (Qlt_le_dec (inject_Z Crypto.kMaxLength) q) as [B|B].
    + rewrite E in B. rewrite <- Zlt_Qlt in B. lia.
    + now rewrite (Qfloor_comp _ _ E), Qfloor_Z.
Qed.

Lemma randomBytes_refused (n : number) (z : Z) (st : Entropy) :
  IsInt n z -> (z < 0 \/ Crypto.kMaxLength < z)%Z ->
  Crypto.randomBytes n st = (Throw (RangeError "ERR_OUT_OF_RANGE"), st).
Proof.
  destruct n as [q| | |]; simpl; try contradiction; intros E Hz.
  destruct (Qlt_le_dec q 0) as [H|H]; [reflexivity|].
  destruct (Qlt_le_dec (inject_Z Crypto.kMaxLength) q) as [B|B]; [reflexivity|].
  rewrite E in H, B. change 0%Q with (inject_Z 0) in H.
  rewrite <- Zle_Qle in H, B. lia.
Qed.

End NumberFacts.

(* ------------------------------------------------------------------ *)
(** ** Encodings: length and alphabet of the encoded text *)

Section EncodingFacts.

(** Induction on a buffer in steps of three bytes, the way base 64
    consumes it. *)
Lemma buffer_ind3 (P : Buffer.t -> Prop) :
  P [] -> (forall x, P [x]) -> (forall x y, P [x; y]) ->
  (forall x y z b, P b -> P (x :: y :: z :: b)) ->
  forall b, P b.
Proof.
  intros H0 H1 H2 H3 b.
  enough (P b /\ (forall x, P (x :: b)) /\ (forall x y, P (x :: y :: b)))
    by tauto.
  induction b as [|z b (IHa & IHb & IHc)]; repeat split; auto.
Qed.

(** A property checked on every index below [bound] holds at each of
    them. *)
Lemma below_bound (P : N -> bool) (bound : nat) :
  forallb (fun i => P (N.of_nat i)) (seq 0 bound) = true ->
  forall i, (i < N.of_nat bound)%N -> P i = true.
Proof.
  intros H i Hi. rewrite forallb_forall in H.
  rewrite <- (N2Nat.id i). apply H, in_seq. lia.
Qed.

Lemma hexDigits_ok (i : N) :
  (i < 16)%N -> isHexChar (Str.charAt Buffer.hexDigits i) = true.
Proof.
  apply (below_bound (fun i => isHexChar (Str.charAt Buffer.hexDigits i)) 16).
  vm_compute; reflexivity.
Qed.

Lemma toHex_length (b : Buffer.t) :
  String.length (Buffer.toHex b) = 2 * List.length b.
Proof. induction b as [|x b IH]; simpl; [reflexivity | rewrite IH; lia]. Qed.

Lemma toHex_alphabet (b : Buffer.t) :
  Str.all isHexChar (Buffer.toHex b) = true.
Proof.
  induction b as [|x b IH]; simpl; [reflexivity|].
  pose proof (Byte.to_N_bounded x) as Hx.
  rewrite IH, !hexDigits_ok; [reflexivity | | ].
  - apply N.mod_lt; discriminate.
  - apply N.Div0.div_lt_upper_bound; lia.
Qed.

Lemma sextet_base64 (n k : N) :
  isBase64Char (Buffer.sextet Buffer.base64Alphabet n k) = true.
Proof.
  unfold Buffer.sextet.
  apply (below_bound
           (fun i => isBase64Char (Str.charAt Buffer.base64Alphabet i)) 64).
  - vm_compute; reflexivity.
  - apply N.mod_lt; discriminate.
Qed.

Lemma sextet_base64url (n k : N) :
  isBase64urlChar (Buffer.sextet Buffer.base64urlAlphabet n k) = true.
Proof.
  unfold Buffer.sextet.
  apply (below_bound
           (fun i => isBase64urlChar (Str.charAt Buffer.base64urlAlphabet i)) 64).
  - vm_compute; reflexivity.
  - apply N.mod_lt; discriminate.
Qed.

Lemma toBase64_unpadded_alphabet (b : Buffer.t) :
  Str.all isBase64Char (Buffer.toBase64With Buffer.base64Alphabet "" b) = true.
Proof.
  induction b as [| | |x y z b IH] using buffer_ind3;
    cbn [Buffer.toBase64With Str.all append];
    rewrite ?sextet_base64, ?IH; reflexivity.
Qed.

Lemma toBase64url_alphabet (b : Buffer.t) :
  Str.all isBase64urlChar (Buffer.toBase64With Buffer.base64urlAlphabet "" b) = true.
Proof.
  induction b as [| | |x y z b IH] using buffer_ind3;
    cbn [Buffer.toBase64With Str.all append];
    rewrite ?sextet_base64url, ?IH; reflexivity.
Qed.

(** Three bytes give four characters; a final one or two bytes give two
    or three: the unpadded text has at least [4n/3] characters. *)
Lemma toBase64_unpadded_length (alphabet : string) (b : Buffer.t) :
  4 * List.length b <= 3 * String.length (Buffer.toBase64With alphabet "" b).
Proof.
  induction b as [| | |x y z b IH] using buffer_ind3;
    cbn [Buffer.toBase64With String.length List.length append]; lia.
Qed.

Lemma toBase64_split (alphabet pad : string) (b : Buffer.t) :
  Buffer.toBase64With alphabet pad b =
  Buffer.toBase64With alphabet "" b ++ tailPadding pad b.
Proof.
  induction b as [| | |x y z b IH] using buffer_ind3;
    cbn [Buffer.toBase64With tailPadding append]; rewrite ?IH; reflexivity.
Qed.

Lemma urlSafe_append (a b : string) : urlSafe (a ++ b) = urlSafe a ++ urlSafe b.
Proof. unfold urlSafe; now rewrite !replaceAll_append. Qed.

Lemma urlSafe_cons (c : ascii) (s : string) :
  urlSafe (String c s) = urlSafe (String c "") ++ urlSafe s.
Proof. now rewrite <- urlSafe_append. Qed.

Lemma urlSafe_sextet (n k : N) :
  urlSafe (String (Buffer.sextet Buffer.base64Alphabet n k) "") =
  String (Buffer.sextet Buffer.base64urlAlphabet n k) "".
Proof.
  unfold Buffer.sextet. apply String.eqb_eq.
  apply (below_bound
           (fun i => String.eqb
                       (urlSafe (String (Str.charAt Buffer.base64Alphabet i) ""))
                       (String (Str.charAt Buffer.base64urlAlphabet i) "")) 64).
  - vm_compute; reflexivity.
  - apply N.mod_lt; discriminate.
Qed.

(** Replacing [+], [/] and [=] in standard base 64 gives the unpadded
    URL-safe encoding of the same bytes. *)
Lemma urlSafe_toBase64 (b : Buffer.t) :
  urlSafe (Buffer.toBase64With Buffer.base64Alphabet "=" b) =
  Buffer.toBase64With Buffer.base64urlAlphabet "" b.
Proof.
  induction b as [| | |x y z b IH] using buffer_ind3;
    cbn [Buffer.toBase64With append];
    repeat (rewrite urlSafe_cons, urlSafe_sextet; cbn [append]);
    rewrite ?IH; reflexivity.
Qed.

End EncodingFacts.

(* ------------------------------------------------------------------ *)
(** ** [generateRandomString] on an integer length *)

Section GeneratorFacts.

Lemma byteCountZ_nonneg (L : Z) (enc : EncodingFormat) :
  (0 <= L)%Z -> (0 <= byteCountZ L enc)%Z.
Proof.
  intros HL.
  pose proof (ceilDiv_spec L 2 ltac:(lia)).
  pose proof (ceilDiv_spec (L * 3) 4 ltac:(lia)).
  destruct enc; simpl; lia.
Qed.

Lemma byteCount_IsInt (n : number) (L : Z) (enc : EncodingFormat) :
  IsInt n L -> IsInt (byteCount n enc) (byteCountZ L enc).
Proof.
  destruct n as [q| | |]; simpl; try contradiction; intros E.
  assert (E3 : (q * inject_Z 3 == inject_Z (L * 3))%Q)
    by (now rewrite E, inject_Z_mult).
  destruct enc; unfold byteCount; simpl.
  - rewrite (Qceiling_div q L 2) by (lia || assumption). reflexivity.
  - rewrite (Qceiling_div _ (L * 3) 4) by (lia || assumption).
    now rewrite inject_Z_plus.
  - rewrite (Qceiling_div _ (L * 3) 4) by (lia || assumption).
    now rewrite inject_Z_plus.
Qed.

Lemma substring_clamped (s : string) (n : number) (i : nat) :
  (forall len, Num.clampIndex n len = Nat.min i len) ->
  Str.substring s (ofZ 0) n =
  String.substring 0 (Nat.min i (String.length s)) s.
Proof.
  intros H. unfold Str.substring.
  rewrite H, (clampIndex_IsInt (ofZ 0) 0) by (simpl; reflexivity || lia).
  simpl Z.to_nat. now rewrite Nat.min_0_l, Nat.max_0_l, Nat.sub_0_r.
Qed.

Lemma nextBytes_length (st : Entropy) (k : nat) :
  List.length (nextBytes st k) = k.
Proof. unfold nextBytes; now rewrite length_map, length_seq. Qed.

Lemma ceilDiv_step (n : Z) : ceilDiv (n + 3) 3 = (ceilDiv n 3 + 1)%Z.
Proof.
  pose proof (ceilDiv_spec n 3 ltac:(lia)).
  pose proof (ceilDiv_spec (n + 3) 3 ltac:(lia)). lia.
Qed.

Lemma toBase64_padded_length (alphabet : string) (b : Buffer.t) :
  Z.of_nat (String.length (Buffer.toBase64With alphabet "=" b)) =
  (4 * ceilDiv (Z.of_nat (List.length b)) 3)%Z.
Proof.
  induction b as [| | |x y z b IH] using buffer_ind3;
    cbn [Buffer.toBase64With String.length List.length append];
    try reflexivity.
  replace (Z.of_nat (S (S (S (List.length b)))))
    with (Z.of_nat (List.length b) + 3)%Z by lia.
  rewrite ceilDiv_step. lia.
Qed.

Lemma rawText_length (enc : EncodingFormat) (buf : Buffer.t) :
  Z.of_nat (String.length (rawText enc buf)) =
  rawLength enc (Z.of_nat (List.length buf)).
Proof.
  destruct enc; unfold rawText; cbn [Buffer.encode rawLength].
  - rewrite toHex_length; lia.
  - apply toBase64_padded_length.
  - apply toBase64_padded_length.
Qed.

(** A call whose byte count is the integer [k], within what the random
    source serves, and whose length clamps to [i]: [k] bytes are drawn;
    their text is refused when it is too long, and cut to its first [i]
    characters otherwise. *)
Lemma generateRandomString_run
    (n : number) (enc : EncodingFormat) (st : Entropy) (k : Z) (i : nat) :
  IsInt (byteCount n enc) k -> (0 <= k <= Crypto.kMaxLength)%Z ->
  (forall len, Num.clampIndex n len = Nat.min i len) ->
  let text := encodedText enc (nextBytes st (Z.to_nat k)) in
  generateRandomString n (Some enc) st =
  (if (Str.kStringMaxLength <? rawLength enc k)%Z
   then Throw (PlatformError "ERR_STRING_TOO_LONG")
   else Normal (String.substring 0 (Nat.min i (String.length text)) text),
   advance st (Z.to_nat k)).
Proof.
  intros EB HB Hclamp text.
  assert (T : forall e, rawText enc (nextBytes st (Z.to_nat k)) =
                        Buffer.encode (nextBytes st (Z.to_nat k)) e ->
            Buffer.toString (nextBytes st (Z.to_nat k)) e (advance st (Z.to_nat k)) =
            (if (Str.kStringMaxLength <? rawLength enc k)%Z
             then Throw (PlatformError "ERR_STRING_TOO_LONG")
             else Normal (rawText enc (nextBytes st (Z.to_nat k))),
             advance st (Z.to_nat k))).
  { intros e He. unfold Buffer.toString. rewrite <- He, rawText_length.
    rewrite nextBytes_length, Z2Nat.id by lia.
    destruct (Str.kStringMaxLength <? rawLength enc k)%Z; reflexivity. }
  unfold generateRandomString, bind; cbn [paramDefault].
  destruct enc; cbn [EncodingFormat_eqb];
    rewrite (randomBytes_IsInt _ _ st EB HB); unfold Crypto.draw;
    fold (nextBytes st (Z.to_nat k)); fold (advance st (Z.to_nat k));
    rewrite (T _ eq_refl);
    (destruct (Str.kStringMaxLength <? _)%Z; [reflexivity|]);
    unfold ret; rewrite (substring_clamped _ n i Hclamp); reflexivity.
Qed.

(** A call whose byte count is a negative integer, or one above the largest
    buffer, is refused by the random source. *)
Lemma generateRandomString_refused
    (n : number) (enc : EncodingFormat) (st : Entropy) (k : Z) :
  IsInt (byteCount n enc) k -> (k < 0 \/ Crypto.kMaxLength < k)%Z ->
  generateRandomString n (Some enc) st =
  (Throw (RangeError "ERR_OUT_OF_RANGE"), st).
Proof.
  intros EB HB.
  unfold generateRandomString, bind; cbn [paramDefault].
  destruct enc; cbn [EncodingFormat_eqb];
    now rewrite (randomBytes_refused _ _ st EB HB).
Qed.

(** Up to the longest length of the encoding, the byte count and the text
    are within what the platform serves. *)
Lemma within_limits (L : Z) (enc : EncodingFormat) :
  (0 <= L <= longestLength enc)%Z ->
  (0 <= byteCountZ L enc <= Crypto.kMaxLength)%Z /\
  (rawLength enc (byteCountZ L enc) <= Str.kStringMaxLength)%Z.
Proof.
  intros HL. unfold Crypto.kMaxLength, Str.kStringMaxLength.
  pose proof (ceilDiv_spec L 2 ltac:(lia)).
  pose proof (ceilDiv_spec (L * 3) 4 ltac:(lia)).
  pose proof (ceilDiv_spec (ceilDiv (L * 3) 4 + 2) 3 ltac:(lia)).
  destruct enc; unfold longestLength, byteCountZ, rawLength in *; lia.
Qed.

(** Beyond it, one of the two is not. *)
Lemma beyond_limits (L : Z) (enc : EncodingFormat) :
  (longestLength enc < L)%Z ->
  (Str.kStringMaxLength < rawLength enc (byteCountZ L enc))%Z.
Proof.
  intros HL. unfold Str.kStringMaxLength.
  pose proof (ceilDiv_spec L 2 ltac:(lia)).
  pose proof (ceilDiv_spec (L * 3) 4 ltac:(lia)).
  pose proof (ceilDiv_spec (ceilDiv (L * 3) 4 + 2) 3 ltac:(lia)).
  destruct enc; unfold longestLength, byteCountZ, rawLength in *; lia.
Qed.

(** What a call on an integer length evaluates to, from 0 up to the longest
    length of the encoding. *)
Lemma generateRandomString_eval
    (n : number) (L : Z) (enc : EncodingFormat) (st : Entropy) :
  IsInt n L -> (0 <= L <= longestLength enc)%Z ->
  let k := Z.to_nat (byteCountZ L enc) in
  let text := encodedText enc (nextBytes st k) in
  generateRandomString n (Some enc) st =
  (Normal (String.substring 0 (Nat.min (Z.to_nat L) (String.length text)) text),
   mkEntropy (pool st) (drawn st + k)).
Proof.
  intros E HL k text.
  destruct (within_limits L enc HL) as [HB HT].
  rewrite (generateRandomString_run n enc st (byteCountZ L enc) (Z.to_nat L)
             (byteCount_IsInt n L enc E) HB
             (fun len => clampIndex_IsInt n L len E ltac:(lia))).
  apply Z.ltb_ge in HT. rewrite HT. reflexivity.
Qed.

(** The encoded text is never shorter than the requested length, and for
    the base 64 variants neither is its part before the padding. *)
Lemma encoded_long_enough (L : Z) (enc : EncodingFormat) (buf : Buffer.t) :
  (0 <= L)%Z -> List.length buf = Z.to_nat (byteCountZ L enc) ->
  Z.to_nat L <=
  String.length
    (match enc with
     | hex => Buffer.toHex buf
     | base64 => Buffer.toBase64With Buffer.base64Alphabet "" buf
     | base64url => Buffer.toBase64With Buffer.base64urlAlphabet "" buf
     end).
Proof.
  intros HL Hlen.
  pose proof (ceilDiv_spec L 2 ltac:(lia)).
  pose proof (ceilDiv_spec (L * 3) 4 ltac:(lia)).
  destruct enc; simpl in Hlen.
  - rewrite toHex_length; lia.
  - pose proof (toBase64_unpadded_length Buffer.base64Alphabet buf); lia.
  - pose proof (toBase64_unpadded_length Buffer.base64urlAlphabet buf); lia.
Qed.

(** The result of a call on an integer length, from 0 up to the longest
    length of the encoding: the first [length] characters of the unpadded
    encoding of the bytes drawn. *)
Lemma generateRandomString_result
    (n : number) (L : Z) (enc : EncodingFormat) (st : Entropy) :
  IsInt n L -> (0 <= L <= longestLength enc)%Z ->
  let k := Z.to_nat (byteCountZ L enc) in
  let body :=
    match enc with
    | hex => Buffer.toHex (nextBytes st k)
    | base64 => Buffer.toBase64With Buffer.base64Alphabet "" (nextBytes st k)
    | base64url => Buffer.toBase64With Buffer.base64urlAlphabet "" (nextBytes st k)
    end in
  generateRandomString n (Some enc) st =
  (Normal (String.substring 0 (Z.to_nat L) body),
   mkEntropy (pool st) (drawn st + k)) /\
  Z.to_nat L <= String.length body.
Proof.
  intros E HL k body.
  pose proof (encoded_long_enough L enc (nextBytes st k) ltac:(lia)
                (nextBytes_length st k)) as Hlong.
  fold body in Hlong. split; [|exact Hlong].
  rewrite (generateRandomString_eval n L enc st E HL). fold k.
  f_equal. f_equal.
  destruct enc; unfold encodedText, body in *; cbn [Buffer.encode].
  - now rewrite Nat.min_l.
  - rewrite toBase64_split, length_append, Nat.min_l by lia.
    now apply prefix_append.
  - rewrite urlSafe_toBase64. now rewrite Nat.min_l.
Qed.

End GeneratorFacts.

(* ------------------------------------------------------------------ *)
(** ** Properties of [generateRandomString] *)

(** Beyond the longest length of the encoding a call on an integer length
    ends in an exception: the random source refuses a byte count above the
    largest buffer, and a text above the longest string is refused once its
    bytes are drawn. *)
Lemma generateRandomString_beyond
    (n : number) (L : Z) (enc : EncodingFormat) (st : Entropy) :
  IsInt n L -> (longestLength enc < L)%Z ->
  ((Crypto.kMaxLength < byteCountZ L enc)%Z /\
   generateRandomString n (Some enc) st =
   (Throw (RangeError "ERR_OUT_OF_RANGE"), st)) \/
  ((byteCountZ L enc <= Crypto.kMaxLength)%Z /\
   generateRandomString n (Some enc) st =
   (Throw (PlatformError "ERR_STRING_TOO_LONG"),
    advance st (Z.to_nat (byteCountZ L enc)))).
Proof.
  intros E HL.
  pose proof (byteCount_IsInt n L enc E) as EB.
  assert (H0 : (0 <= L)%Z) by (destruct enc; unfold longestLength in HL; lia).
  pose proof (byteCountZ_nonneg L enc H0) as HB.
  destruct (Z.lt_ge_cases Crypto.kMaxLength (byteCountZ L enc)) as [Big|Fit].
  - left; split; [exact Big|].
    apply (generateRandomString_refused n enc st _ EB). now right.
  - right; split; [exact Fit|].
    rewrite (generateRandomString_run n enc st (byteCountZ L enc) (Z.to_nat L)
               EB (conj HB Fit)
               (fun len => clampIndex_IsInt n L len E H0)).
    pose proof (beyond_limits L enc HL) as T. apply Z.ltb_lt in T.
    now rewrite T.
Qed.

(** C1, as the specification states it, fails: at length 536870890 in hex
    the text of the 268435445 bytes drawn is longer than the longest string
    of the platform, and the call throws. *)
Lemma generateRandomString_exact_length_fails :
  (1 <= 536870890)%Z /\
  fst (generateRandomString (ofZ 536870890) (Some hex) sampleEntropy) =
  Throw (PlatformError "ERR_STRING_TOO_LONG").
Proof.
  split; [lia|].
  destruct (generateRandomString_beyond (ofZ 536870890) 536870890 hex
              sampleEntropy) as [[Big _]|[_ R]].
  - simpl; reflexivity.
  - reflexivity.
  - exfalso. vm_compute in Big. discriminate.
  - now rewrite R.
Qed.

(** C1, amended.  For every integer length from 1 up to the longest length
    of the encoding (536870888 for hex, 536870885 for base64 and
    base64url), [generateRandomString] returns a string of exactly [length]
    characters. *)
Theorem generateRandomString_exact_length
    (n : number) (L : Z) (enc : EncodingFormat) (st : Entropy) :
  IsInt n L -> (1 <= L)%Z -> (L <= longestLength enc)%Z ->
  exists s st',
    generateRandomString n (Some enc) st = (Normal s, st') /\
    Z.of_nat (String.length s) = L.
Proof.
  intros E HL HM.
  destruct (generateRandomString_result n L enc st E ltac:(lia)) as [Hrun Hlong].
  eexists; eexists; split; [exact Hrun|].
  rewrite prefix_length by exact Hlong. lia.
Qed.

Lemma generateRandomString_exact_length_witness :
  exists s st',
    generateRandomString (ofZ 5) (Some base64) sampleEntropy = (Normal s, st') /\
    Z.of_nat (String.length s) = 5%Z.
Proof.
  apply (generateRandomString_exact_length (ofZ 5) 5 base64 sampleEntropy);
    [reflexivity | lia | simpl; lia].
Defined.

(** A call on an integer length at least 1 that returns, returns the first
    [length] characters of the unpadded encoding of some bytes. *)
Lemma generateRandomString_returned
    (n : number) (L : Z) (enc : EncodingFormat) (st : Entropy)
    (s : string) (st' : Entropy) :
  IsInt n L -> (1 <= L)%Z ->
  generateRandomString n (Some enc) st = (Normal s, st') ->
  exists buf k,
    s = String.substring 0 k
          (match enc with
           | hex => Buffer.toHex buf
           | base64 => Buffer.toBase64With Buffer.base64Alphabet "" buf
           | base64url => Buffer.toBase64With Buffer.base64urlAlphabet "" buf
           end).
Proof.
  intros E HL R.
  destruct (Z.le_gt_cases L (longestLength enc)) as [In|Out].
  - destruct (generateRandomString_result n L enc st E ltac:(lia)) as [Hrun _].
    rewrite Hrun in R. injection R as <- _. eauto.
  - destruct (generateRandomString_beyond n L enc st E ltac:(lia))
      as [[_ T]|[_ T]]; rewrite T in R; discriminate.
Qed.

(** C3.  For every integer length at least 1, what
    [generateRandomString] returns in hex consists only of characters of
    [0-9a-f], and what it returns in base64url only of characters of
    [A-Za-z0-9_-], with no [+], [/] or [=] in it; and up to the longest
    length of the encoding it does return. *)
Theorem generateRandomString_alphabet (n : number) (L : Z) (st : Entropy) :
  IsInt n L -> (1 <= L)%Z ->
  (forall s st',
      generateRandomString n (Some hex) st = (Normal s, st') ->
      Str.all isHexChar s = true) /\
  (forall s st',
      generateRandomString n (Some base64url) st = (Normal s, st') ->
      Str.all isBase64urlChar s = true /\
      Str.mem "+" s = false /\ Str.mem "/" s = false /\ Str.mem "=" s = false) /\
  ((L <= longestLength hex)%Z ->
   exists s st', generateRandomString n (Some hex) st = (Normal s, st')) /\
  ((L <= longestLength base64url)%Z ->
   exists s st', generateRandomString n (Some base64url) st = (Normal s, st')).
Proof.
  intros E HL. repeat split.
  - intros s st' R.
    destruct (generateRandomString_returned n L hex st s st' E HL R)
      as (buf & k & ->).
    apply prefix_all, toHex_alphabet.
  - destruct (generateRandomString_returned n L base64url st s st' E HL H)
      as (buf & k & ->).
    apply prefix_all, toBase64url_alphabet.
  - destruct (generateRandomString_returned n L base64url st s st' E HL H)
      as (buf & k & ->).
    apply (all_not_mem isBase64urlChar); [reflexivity|].
    apply prefix_all, toBase64url_alphabet.
  - destruct (generateRandomString_returned n L base64url st s st' E HL H)
      as (buf & k & ->).
    apply (all_not_mem isBase64urlChar); [reflexivity|].
    apply prefix_all, toBase64url_alphabet.
  - destruct (generateRandomString_returned n L base64url st s st' E HL H)
      as (buf & k & ->).
    apply (all_not_mem isBase64urlChar); [reflexivity|].
    apply prefix_all, toBase64url_alphabet.
  - intros HM.
    destruct (generateRandomString_result n L hex st E ltac:(lia)) as [R _].
    eauto.
  - intros HM.
    destruct (generateRandomString_result n L base64url st E ltac:(lia)) as [R _].
    eauto.
Qed.

Lemma generateRandomString_alphabet_witness :
  (forall s st',
      generateRandomString (ofZ 7) (Some hex) sampleEntropy = (Normal s, st') ->
      Str.all isHexChar s = true) /\
  (forall s st',
      generateRandomString (ofZ 7) (Some base64url) sampleEntropy = (Normal s, st') ->
      Str.all isBase64urlChar s = true /\
      Str.mem "+" s = false /\ Str.mem "/" s = false /\ Str.mem "=" s = false) /\
  ((7 <= longestLength hex)%Z ->
   exists s st',
     generateRandomString (ofZ 7) (Some hex) sampleEntropy = (Normal s, st')) /\
  ((7 <= longestLength base64url)%Z ->
   exists s st',
     generateRandomString (ofZ 7) (Some base64url) sampleEntropy = (Normal s, st')).
Proof.
  apply (generateRandomString_alphabet (ofZ 7) 7 sampleEntropy);
    [reflexivity | lia].
Defined.

(** C4, as the specification states it, fails: at length 4294967296 in hex
    the byte count is 2147483648, above the largest buffer, and nothing is
    drawn. *)
Lemma generateRandomString_bytes_drawn_fails :
  (1 <= 4294967296)%Z /\ ceilDiv 4294967296 2 = 2147483648%Z /\
  generateRandomString (ofZ 4294967296) (Some hex) sampleEntropy =
  (Throw (RangeError "ERR_OUT_OF_RANGE"), sampleEntropy).
Proof.
  split; [lia|]. split; [reflexivity|].
  apply (generateRandomString_refused _ hex sampleEntropy 2147483648).
  - exact (byteCount_IsInt (ofZ 4294967296) 4294967296 hex (Qeq_refl _)).
  - right. unfold Crypto.kMaxLength. lia.
Qed.

(** C4, amended.  For every integer length at least 1 whose byte count,
    [ceil(length / 2)] for hex and [ceil(length * 3 / 4) + 2] for base64 and
    base64url, is at most the largest buffer (2147483647 bytes),
    [generateRandomString] draws exactly that many bytes; up to the longest
    length of the encoding it then returns the first [length] characters of
    their encoding. *)
Theorem generateRandomString_bytes_drawn
    (n : number) (L : Z) (enc : EncodingFormat) (st : Entropy) :
  IsInt n L -> (1 <= L)%Z ->
  exists k : nat,
    Z.of_nat k = match enc with
                 | hex => ceilDiv L 2
                 | base64 | base64url => (ceilDiv (L * 3) 4 + 2)%Z
                 end /\
    ((Z.of_nat k <= Crypto.kMaxLength)%Z ->
     snd (generateRandomString n (Some enc) st) =
     mkEntropy (pool st) (drawn st + k)) /\
    ((L <= longestLength enc)%Z ->
     generateRandomString n (Some enc) st =
     (Normal (String.substring 0 (Z.to_nat L) (encodedText enc (nextBytes st k))),
      mkEntropy (pool st) (drawn st + k))).
Proof.
  intros E HL.
  pose proof (byteCountZ_nonneg L enc ltac:(lia)) as HB.
  exists (Z.to_nat (byteCountZ L enc)).
  assert (K : Z.of_nat (Z.to_nat (byteCountZ L enc)) = byteCountZ L enc)
    by (apply Z2Nat.id; exact HB).
  split; [rewrite K; destruct enc; reflexivity|]. split.
  - rewrite K; intros Fit.
    rewrite (generateRandomString_run n enc st (byteCountZ L enc) (Z.to_nat L)
               (byteCount_IsInt n L enc E) (conj HB Fit)
               (fun len => clampIndex_IsInt n L len E ltac:(lia))).
    reflexivity.
  - intros HM.
    rewrite (generateRandomString_eval n L enc st E ltac:(lia)).
    f_equal. f_equal. f_equal. apply Nat.min_l.
    pose proof (encoded_long_enough L enc _ ltac:(lia)
                  (nextBytes_length st (Z.to_nat (byteCountZ L enc)))) as Hlong.
    destruct enc; unfold encodedText; cbn [Buffer.encode].
    + exact Hlong.
    + rewrite toBase64_split, length_append; lia.
    + now rewrite urlSafe_toBase64.
Qed.

Lemma generateRandomString_bytes_drawn_witness :
  exists k : nat,
    Z.of_nat k = (ceilDiv (10 * 3) 4 + 2)%Z /\
    ((Z.of_nat k <= Crypto.kMaxLength)%Z ->
     snd (generateRandomString (ofZ 10) (Some base64) sampleEntropy) =
     mkEntropy (pool sampleEntropy) (drawn sampleEntropy + k)) /\
    ((10 <= longestLength base64)%Z ->
     generateRandomString (ofZ 10) (Some base64) sampleEntropy =
     (Normal (String.substring 0 (Z.to_nat 10)
                (encodedText base64 (nextBytes sampleEntropy k))),
      mkEntropy (pool sampleEntropy) (drawn sampleEntropy + k))).
Proof.
  apply (generateRandomString_bytes_drawn (ofZ 10) 10 base64 sampleEntropy);
    [reflexivity | lia].
Defined.

(** C9.  For every integer length at least 1, what
    [generateRandomString] returns in base64 contains no [=]: the padding
    lies beyond the truncation point; and up to the longest length of the
    encoding it does return. *)
Theorem generateRandomString_base64_no_padding
    (n : number) (L : Z) (st : Entropy) :
  IsInt n L -> (1 <= L)%Z ->
  (forall s st',
      generateRandomString n (Some base64) st = (Normal s, st') ->
      Str.mem "=" s = false /\ Str.all isBase64Char s = true) /\
  ((L <= longestLength base64)%Z ->
   exists s st', generateRandomString n (Some base64) st = (Normal s, st')).
Proof.
  intros E HL. split.
  - intros s st' R.
    destruct (generateRandomString_returned n L base64 st s st' E HL R)
      as (buf & k & ->).
    assert (A : Str.all isBase64Char
                  (String.substring 0 k
                     (Buffer.toBase64With Buffer.base64Alphabet "" buf)) = true)
      by (apply prefix_all, toBase64_unpadded_alphabet).
    split; [|exact A].
    apply (all_not_mem isBase64Char); [reflexivity | exact A].
  - intros HM.
    destruct (generateRandomString_result n L base64 st E ltac:(lia)) as [R _].
    eauto.
Qed.

Lemma generateRandomString_base64_no_padding_witness :
  (forall s st',
      generateRandomString (ofZ 1) (Some base64) sampleEntropy = (Normal s, st') ->
      Str.mem "=" s = false /\ Str.all isBase64Char s = true) /\
  ((1 <= longestLength base64)%Z ->
   exists s st',
     generateRandomString (ofZ 1) (Some base64) sampleEntropy = (Normal s, st')).
Proof.
  apply (generateRandomString_base64_no_padding (ofZ 1) 1 sampleEntropy);
    [reflexivity | lia].
Defined.

(** C10.  [generateRandomString(0, "hex")] returns the empty string and
    raises no error: the byte count is zero, nothing is drawn, and the empty
    encoding is truncated to the empty string. *)
Theorem generateRandomString_zero_hex (st : Entropy) :
  generateRandomString (ofZ 0) (Some hex) st = (Normal "", st) /\
  generateRandomString (ofZ 0) None st = (Normal "", st) /\
  IsInt (byteCount (ofZ 0) hex) 0.
Proof.
  assert (R : generateRandomString (ofZ 0) (Some hex) st = (Normal "", st)).
  { rewrite (generateRandomString_eval (ofZ 0) 0 hex st)
      by (reflexivity || (unfold longestLength; lia)).
    destruct st as [p d]; cbn. now rewrite Nat.add_0_r. }
  split; [exact R | split; [exact R | reflexivity]].
Qed.

(* ------------------------------------------------------------------ *)
(** ** The validation checks of [generateOAuthCredentials] *)

Section ValidationFacts.

Variables (message : string) (st : Entropy).

Lemma requireNonEmptyString_cases (v : value) :
  (exists s, v = VString s /\ s <> "" /\
             requireNonEmptyString v message st = (Normal s, st)) \/
  (~ NonEmptyString v /\
   requireNonEmptyString v message st = (Throw (Error message), st)).
Proof.
  destruct v as [| | | |s|];
    try (right; split; [intros [s' [E _]]; discriminate | reflexivity]).
  destruct s as [|c s].
  - right; split; [|reflexivity].
    intros [s' [E Hs']]; injection E as <-; now apply Hs'.
  - left; exists (String c s); repeat split; discriminate.
Qed.

Lemma requirePositiveInteger_cases (v : value) :
  (exists n z, v = VNumber n /\ IsInt n z /\ (1 <= z)%Z /\
               requirePositiveInteger v message st = (Normal n, st)) \/
  (~ PositiveInteger v /\
   requirePositiveInteger v message st = (Throw (Error message), st)).
Proof.
  destruct v as [| | |n| |];
    try (right; split; [intros [n' [z [E _]]]; discriminate | reflexivity]).
  simpl. destruct (Num.isInteger n) eqn:Hint; simpl.
  - apply isInteger_IsInt in Hint as [z Hz].
    rewrite (ltb_IsInt n z 1 Hz).
    destruct (Z.ltb_spec z 1) as [Hlt|Hge].
    + right; split; [|reflexivity].
      intros [n' [z' [E [Hz' H1]]]]; injection E as <-.
      destruct n as [q| | |]; simpl in Hz, Hz'; try contradiction.
      rewrite Hz in Hz'. apply inject_Z_injective in Hz' as ->. lia.
    + left; exists n, z; repeat split; assumption.
  - right; split; [|reflexivity].
    intros [n' [z' [E [Hz' _]]]]; injection E as <-.
    assert (Num.isInteger n = true) by (apply isInteger_IsInt; eauto).
    congruence.
Qed.

Lemma requireIncluded_cases (v : value) :
  (exists enc, v = VString (encodingName enc) /\
               requireIncluded validEncodings v message st = (Normal enc, st)) \/
  (~ KnownEncoding v /\
   requireIncluded validEncodings v message st = (Throw (Error message), st)).
Proof.
  destruct v as [| | | |s|];
    try (right; split;
         [intros [E|[E|E]]; discriminate | reflexivity]).
  unfold requireIncluded, includes, validEncodings; cbn [find encodingName].
  destruct (String.eqb_spec "hex" s) as [<-|N1];
    [left; exists hex; split; reflexivity|].
  destruct (String.eqb_spec "base64" s) as [<-|N2];
    [left; exists base64; split; reflexivity|].
  destruct (String.eqb_spec "base64url" s) as [<-|N3];
    [left; exists base64url; split; reflexivity|].
  right; split; [|reflexivity].
  intros [E|[E|E]]; injection E as ->; congruence.
Qed.

End ValidationFacts.

Lemma PositiveInteger_ofZ (z : Z) :
  PositiveInteger (VNumber (ofZ z)) <-> (1 <= z)%Z.
Proof.
  split.
  - intros [n [z' [E [Hz H1]]]]; injection E as <-.
    simpl in Hz. apply inject_Z_injective in Hz as ->. exact H1.
  - intros H; exists (ofZ z), z.
    split; [reflexivity | split; [simpl; reflexivity | exact H]].
Qed.

Lemma KnownEncoding_name (enc : EncodingFormat) :
  KnownEncoding (VString (encodingName enc)).
Proof. destruct enc; unfold KnownEncoding; simpl; auto. Qed.

(* ------------------------------------------------------------------ *)
(** ** Computations that throw no [Error] of the source *)

Section NoErrorFacts.

Lemma NoError_ret {A} (a : A) : NoError (ret a).
Proof. intros st message; discriminate. Qed.

Lemma NoError_bind {A B} (m : M A) (k : A -> M B) :
  NoError m -> (forall a, NoError (k a)) -> NoError (bind m k).
Proof.
  intros Hm Hk st message. unfold bind.
  destruct (m st) as [[a|e] st'] eqn:E.
  - apply Hk.
  - pose proof (Hm st message) as N. rewrite E in N.
    cbn [fst] in *. intros X. apply N. now injection X as ->.
Qed.

Lemma NoError_randomBytes (size : number) : NoError (Crypto.randomBytes size).
Proof.
  intros st message. destruct size as [q| | |]; simpl; try discriminate.
  destruct (Qlt_le_dec q 0); [discriminate|].
  destruct (Qlt_le_dec (inject_Z Crypto.kMaxLength) q); discriminate.
Qed.

Lemma NoError_toString (b : Buffer.t) (enc : EncodingFormat) :
  NoError (Buffer.toString b enc).
Proof.
  intros st message. unfold Buffer.toString.
  destruct (Str.kStringMaxLength <? _)%Z; discriminate.
Qed.

Lemma NoError_makeString (s : string) : NoError (makeString s).
Proof.
  intros st message. unfold makeString.
  destruct (Str.kStringMaxLength <? _)%Z; discriminate.
Qed.

Lemma NoError_generateRandomString (n : number) (enc : option EncodingFormat) :
  NoError (generateRandomString n enc).
Proof.
  unfold generateRandomString.
  destruct (EncodingFormat_eqb (paramDefault hex enc) base64url);
    (apply NoError_bind; [apply NoError_randomBytes|]; intros buf;
     apply NoError_bind; [apply NoError_toString|]; intros text;
     apply NoError_ret).
Qed.

Lemma NoError_assemble (p : string) (n1 n2 : number) (enc : EncodingFormat) :
  NoError (assemble p n1 n2 enc).
Proof.
  unfold assemble.
  apply NoError_bind; [apply NoError_generateRandomString|]; intros r1.
  apply NoError_bind; [apply NoError_makeString|]; intros id.
  apply NoError_bind; [apply NoError_generateRandomString|]; intros r2.
  apply NoError_ret.
Qed.

End NoErrorFacts.

(* ------------------------------------------------------------------ *)
(** ** [generateOAuthCredentials]: every way a call can end *)

Lemma generateOAuthCredentials_cases (o : OAuthCredentialsOptions) (st : Entropy) :
  let e := effective o in
  let run := generateOAuthCredentials (Some o) st in
  (~ NonEmptyString (idPrefix e) /\
   run = (Throw (Error idPrefixMessage), st)) \/
  (NonEmptyString (idPrefix e) /\ ~ PositiveInteger (idLength e) /\
   run = (Throw (Error idLengthMessage), st)) \/
  (NonEmptyString (idPrefix e) /\ PositiveInteger (idLength e) /\
   ~ PositiveInteger (secretLength e) /\
   run = (Throw (Error secretLengthMessage), st)) \/
  (NonEmptyString (idPrefix e) /\ PositiveInteger (idLength e) /\
   PositiveInteger (secretLength e) /\ ~ KnownEncoding (encoding e) /\
   run = (Throw (Error encodingMessage), st)) \/
  (exists p n1 L1 n2 L2 enc,
      e = mkOptions (VString p) (VNumber n1) (VNumber n2)
            (VString (encodingName enc)) /\
      p <> "" /\ IsInt n1 L1 /\ (1 <= L1)%Z /\ IsInt n2 L2 /\ (1 <= L2)%Z /\
      run = assemble p n1 n2 enc st).
Proof.
  intros e run.
  assert (Hrun : run =
    (p <- requireNonEmptyString (idPrefix e) idPrefixMessage ;;
     n1 <- requirePositiveInteger (idLength e) idLengthMessage ;;
     n2 <- requirePositiveInteger (secretLength e) secretLengthMessage ;;
     enc <- requireIncluded validEncodings (encoding e) encodingMessage ;;
     assemble p n1 n2 enc) st) by reflexivity.
  destruct (requireNonEmptyString_cases idPrefixMessage st (idPrefix e))
    as [(p & Ep & Hp & Rp)|[Np Rp]];
    [|left; split; [exact Np|]; rewrite Hrun; unfold bind; now rewrite Rp].
  assert (Vp : NonEmptyString (idPrefix e)) by (exists p; auto).
  right.
  destruct (requirePositiveInteger_cases idLengthMessage st (idLength e))
    as [(n1 & L1 & E1 & I1 & H1 & R1)|[N1 R1]];
    [|left; repeat split; try assumption;
      rewrite Hrun; unfold bind; now rewrite Rp, R1].
  assert (V1 : PositiveInteger (idLength e)) by (exists n1, L1; auto).
  right.
  destruct (requirePositiveInteger_cases secretLengthMessage st (secretLength e))
    as [(n2 & L2 & E2 & I2 & H2 & R2)|[N2 R2]];
    [|left; repeat split; try assumption;
      rewrite Hrun; unfold bind; now rewrite Rp, R1, R2].
  assert (V2 : PositiveInteger (secretLength e)) by (exists n2, L2; auto).
  right.
  destruct (requireIncluded_cases encodingMessage st (encoding e))
    as [(enc & Ee & Re)|[Ne Re]];
    [|left; repeat split; try assumption;
      rewrite Hrun; unfold bind; now rewrite Rp, R1, R2, Re].
  right. exists p, n1, L1, n2, L2, enc.
  split; [|repeat split; try assumption].
  - rewrite <- Ep, <- E1, <- E2, <- Ee. reflexivity.
  - fold run; rewrite Hrun; unfold bind at 1 2 3 4.
    now rewrite Rp, R1, R2, Re.
Qed.

Lemma IsInt_unique (n : number) (z z' : Z) : IsInt n z -> IsInt n z' -> z = z'.
Proof.
  destruct n as [q| | |]; simpl; try contradiction.
  intros E E'. rewrite E in E'. now apply inject_Z_injective.
Qed.

Lemma encodingName_injective (a b : EncodingFormat) :
  encodingName a = encodingName b -> a = b.
Proof. destruct a, b; simpl; intros E; (reflexivity || discriminate). Qed.

(** Valid options, by the values they resolve to. *)
Lemma valid_resolved (o : OAuthCredentialsOptions)
    (p : string) (n1 : number) (L1 : Z) (n2 : number) (L2 : Z)
    (enc : EncodingFormat) (st : Entropy) :
  effective o =
    mkOptions (VString p) (VNumber n1) (VNumber n2) (VString (encodingName enc)) ->
  p <> "" -> IsInt n1 L1 -> (1 <= L1)%Z -> IsInt n2 L2 -> (1 <= L2)%Z ->
  generateOAuthCredentials (Some o) st = assemble p n1 n2 enc st.
Proof.
  intros E Hp I1 H1 I2 H2.
  destruct (generateOAuthCredentials_cases o st)
    as [[N _]|[(_ & N & _)|[(_ & _ & N & _)|[(_ & _ & _ & N & _)|S]]]];
    try (exfalso; apply N; rewrite E; cbn [idPrefix idLength secretLength encoding];
         solve [ exists p; auto | exists n1, L1; auto | exists n2, L2; auto
               | apply KnownEncoding_name ]).
  destruct S as (p' & m1 & K1 & m2 & K2 & enc' & E' & _ & _ & _ & _ & _ & R).
  rewrite E in E'. injection E' as <- <- <- Ee.
  apply encodingName_injective in Ee as <-. exact R.
Qed.

Lemma jsLength_append (a b : string) :
  Str.jsLength (a ++ b) = (Str.jsLength a + Str.jsLength b)%Z.
Proof. induction a as [|c a IH]; simpl; [reflexivity | rewrite IH; lia]. Qed.

Lemma codeUnits_class (enc : EncodingFormat) (c : ascii) :
  charClass enc c = true -> Str.codeUnits c = 1%Z.
Proof.
  intros H.
  assert (R : (N_of_ascii c < 128)%N).
  { destruct enc; simpl in H;
      unfold isHexChar, isBase64Char, isBase64urlChar, isAlphaNum in H;
      cbv zeta in H;
      repeat match type of H with
             | (_ || _ = true) => apply orb_true_iff in H; destruct H as [H|H]
             | (_ && _ = true) => apply andb_true_iff in H; destruct H as [H H']
             end;
      try (apply N.leb_le in H, H'; lia);
      apply Ascii.eqb_eq in H; subst; vm_compute; reflexivity. }
  unfold Str.codeUnits; cbv zeta.
  destruct (N.leb_spec 128 (N_of_ascii c)); [lia|].
  destruct (N.leb_spec 240 (N_of_ascii c)); [lia|]. reflexivity.
Qed.

Lemma jsLength_class (enc : EncodingFormat) (s : string) :
  Str.all (charClass enc) s = true ->
  Str.jsLength s = Z.of_nat (String.length s).
Proof.
  induction s as [|c s IH]; [reflexivity|].
  cbn [Str.all Str.jsLength String.length]; intros H.
  apply andb_true_iff in H as [Hc Hs].
  rewrite (codeUnits_class enc c Hc), (IH Hs). lia.
Qed.

Lemma body_class (enc : EncodingFormat) (buf : Buffer.t) (i : nat) :
  i <= String.length
         (match enc with
          | hex => Buffer.toHex buf
          | base64 => Buffer.toBase64With Buffer.base64Alphabet "" buf
          | base64url => Buffer.toBase64With Buffer.base64urlAlphabet "" buf
          end) ->
  Str.all (charClass enc) (String.substring 0 i (encodedText enc buf)) = true.
Proof.
  intros Hi. destruct enc; unfold encodedText; cbn [Buffer.encode charClass].
  - apply prefix_all, toHex_alphabet.
  - rewrite toBase64_split, prefix_append by exact Hi.
    apply prefix_all, toBase64_unpadded_alphabet.
  - rewrite urlSafe_toBase64. apply prefix_all, toBase64url_alphabet.
Qed.

(** A call on an integer length from 0 up to the longest of the encoding,
    by the bytes it draws. *)
Lemma generateRandomString_text
    (n : number) (L : Z) (enc : EncodingFormat) (st : Entropy) :
  IsInt n L -> (0 <= L <= longestLength enc)%Z ->
  let k := Z.to_nat (byteCountZ L enc) in
  let s := String.substring 0 (Z.to_nat L)
             (encodedText enc (map (pool st) (seq (drawn st) k))) in
  generateRandomString n (Some enc) st =
  (Normal s, mkEntropy (pool st) (drawn st + k)) /\
  Z.of_nat (String.length s) = L /\
  Str.all (charClass enc) s = true.
Proof.
  intros E HL k s.
  pose proof (encoded_long_enough L enc (nextBytes st k) ltac:(lia)
                (nextBytes_length st k)) as Hbody.
  assert (Hlong : Z.to_nat L <= String.length (encodedText enc (nextBytes st k))).
  { destruct enc; unfold encodedText; cbn [Buffer.encode].
    - exact Hbody.
    - rewrite toBase64_split, length_append; lia.
    - now rewrite urlSafe_toBase64. }
  repeat split.
  - rewrite (generateRandomString_eval n L enc st E HL). fold k.
    now rewrite Nat.min_l by exact Hlong.
  - unfold s. fold (nextBytes st k). rewrite prefix_length by exact Hlong. lia.
  - apply body_class. exact Hbody.
Qed.

(** The generation on lengths and a prefix that the platform's limits
    allow: both parts are cut from the encodings of consecutive bytes of the
    pool. *)
Lemma assemble_within
    (p : string) (n1 : number) (L1 : Z) (n2 : number) (L2 : Z)
    (enc : EncodingFormat) (st : Entropy) :
  IsInt n1 L1 -> (1 <= L1 <= longestLength enc)%Z ->
  IsInt n2 L2 -> (1 <= L2 <= longestLength enc)%Z ->
  (Str.jsLength p + 1 + L1 <= Str.kStringMaxLength)%Z ->
  let k1 := Z.to_nat (byteCountZ L1 enc) in
  let k2 := Z.to_nat (byteCountZ L2 enc) in
  let r1 := String.substring 0 (Z.to_nat L1)
              (encodedText enc (map (pool st) (seq (drawn st) k1))) in
  let r2 := String.substring 0 (Z.to_nat L2)
              (encodedText enc (map (pool st) (seq (drawn st + k1) k2))) in
  generateRandomString n1 (Some enc) st =
  (Normal r1, mkEntropy (pool st) (drawn st + k1)) /\
  generateRandomString n2 (Some enc) (mkEntropy (pool st) (drawn st + k1)) =
  (Normal r2, mkEntropy (pool st) (drawn st + k1 + k2)) /\
  Z.of_nat (String.length r1) = L1 /\ Z.of_nat (String.length r2) = L2 /\
  Str.all (charClass enc) r1 = true /\ Str.all (charClass enc) r2 = true /\
  assemble p n1 n2 enc st =
  (Normal {| clientId := p ++ "_" ++ r1; clientSecret := r2 |},
   mkEntropy (pool st) (drawn st + k1 + k2)).
Proof.
  intros I1 H1 I2 H2 Fit k1 k2 r1 r2.
  destruct (generateRandomString_text n1 L1 enc st I1 ltac:(lia))
    as (G1 & Len1 & C1).
  destruct (generateRandomString_text n2 L2 enc
              (mkEntropy (pool st) (drawn st + k1)) I2 ltac:(lia))
    as (G2 & Len2 & C2).
  fold k1 r1 in G1, Len1, C1. cbn [pool drawn] in G2, Len2, C2.
  fold k2 r2 in G2, Len2, C2.
  repeat split; try assumption.
  unfold assemble, bind. rewrite G1.
  assert (M : makeString (p ++ "_" ++ r1) (mkEntropy (pool st) (drawn st + k1)) =
              (Normal (p ++ "_" ++ r1), mkEntropy (pool st) (drawn st + k1))).
  { unfold makeString.
    rewrite !jsLength_append, (jsLength_class enc r1 C1), Len1.
    change (Str.jsLength "_") with 1%Z.
    destruct (Z.ltb_spec Str.kStringMaxLength (Str.jsLength p + (1 + L1)));
      [lia | reflexivity]. }
  rewrite M, G2. reflexivity.
Qed.

(* ------------------------------------------------------------------ *)
(** ** Properties of [generateOAuthCredentials] *)

(** C2, as the specification states it, fails: [generateRandomString] has
    no check on [length].  Length 0 (non-positive), length 3/2
    (non-integer) and length -1 are all accepted, and the last two draw
    bytes. *)
Lemma generateRandomString_accepts_invalid_length :
  ~ PositiveInteger (VNumber (ofZ 0)) /\
  ~ RejectedBeforeDrawing (generateRandomString (ofZ 0) (Some hex)) sampleEntropy /\
  ~ RejectedBeforeDrawing
      (generateRandomString (Finite (3 # 2)) (Some hex)) sampleEntropy /\
  ~ RejectedBeforeDrawing
      (generateRandomString (ofZ (-1)) (Some base64)) sampleEntropy /\
  drawn (snd (generateRandomString (Finite (3 # 2)) (Some hex) sampleEntropy)) = 1 /\
  drawn (snd (generateRandomString (ofZ (-1)) (Some base64) sampleEntropy)) = 2.
Proof.
  split; [rewrite PositiveInteger_ofZ; lia|].
  repeat split;
    try (intros [ex H]; apply (f_equal fst) in H; vm_compute in H; discriminate).
Qed.

(** C2, amended.  A non-positive or non-integer [idLength] or
    [secretLength] makes [generateOAuthCredentials] raise a validation error
    before any random byte is drawn; [generateRandomString] itself never
    raises a validation error, whatever the length. *)
Theorem invalid_length_rejected_by_assembler
    (o : OAuthCredentialsOptions) (st : Entropy) :
  ~ PositiveInteger (idLength (effective o)) \/
  ~ PositiveInteger (secretLength (effective o)) ->
  (exists message,
      generateOAuthCredentials (Some o) st = (Throw (Error message), st)) /\
  (forall n enc st0 message,
      fst (generateRandomString n enc st0) <> Throw (Error message)).
Proof.
  intros H; split; [|intros; apply NoError_generateRandomString].
  destruct (generateOAuthCredentials_cases o st)
    as [[_ R]|[(_ & _ & R)|[(_ & _ & _ & R)|[(_ & _ & _ & _ & R)|S]]]];
    try (eexists; exact R).
  destruct S as (p & n1 & L1 & n2 & L2 & enc & E & _ & I1 & H1 & I2 & H2 & _).
  rewrite E in H; simpl in H.
  destruct H as [H|H]; exfalso; apply H; do 2 eexists; eauto.
Qed.

Lemma invalid_length_rejected_by_assembler_witness :
  (exists message,
      generateOAuthCredentials
        (Some (mkOptions VUndefined (VNumber (ofZ 0)) VUndefined (VString "hex")))
        sampleEntropy = (Throw (Error message), sampleEntropy)) /\
  (forall n enc st0 message,
      fst (generateRandomString n enc st0) <> Throw (Error message)).
Proof.
  apply (invalid_length_rejected_by_assembler
           (mkOptions VUndefined (VNumber (ofZ 0)) VUndefined (VString "hex"))
           sampleEntropy).
  left; simpl. rewrite PositiveInteger_ofZ. lia.
Defined.

(** C5.  [generateOAuthCredentials] raises a validation error, an [Error]
    of its own, if and only if, once the defaults stand in for omitted
    fields, the [idPrefix] is not a non-empty string, or the [idLength] or
    the [secretLength] is not an integer at least 1, or the [encoding] is
    not one of the three names; the message of the error names a failing
    option and its constraint. *)
Theorem generateOAuthCredentials_validation_error
    (o : OAuthCredentialsOptions) (st : Entropy) :
  let e := effective o in
  let outcome := fst (generateOAuthCredentials (Some o) st) in
  ((exists message, outcome = Throw (Error message)) <->
   (~ NonEmptyString (idPrefix e) \/ ~ PositiveInteger (idLength e) \/
    ~ PositiveInteger (secretLength e) \/ ~ KnownEncoding (encoding e))) /\
  (forall message, outcome = Throw (Error message) ->
     (message = "idPrefix must be a non-empty string" /\
      ~ NonEmptyString (idPrefix e)) \/
     (message = "idLength must be a positive integer" /\
      ~ PositiveInteger (idLength e)) \/
     (message = "secretLength must be a positive integer" /\
      ~ PositiveInteger (secretLength e)) \/
     (message = "encoding must be one of: hex, base64, base64url" /\
      ~ KnownEncoding (encoding e))).
Proof.
  intros e outcome; subst e outcome.
  destruct (generateOAuthCredentials_cases o st)
    as [[N R]|[(_ & N & R)|[(_ & _ & N & R)|[(_ & _ & _ & N & R)|S]]]];
    try rewrite R; cbn [fst].
  1-4: split;
    [ split; [intros _; tauto | intros _; eexists; reflexivity]
    | intros message Hex; injection Hex as <-; tauto ].
  destruct S as (p & n1 & L1 & n2 & L2 & enc & E & Hp & I1 & H1 & I2 & H2 & R).
  rewrite R.
  pose proof (NoError_assemble p n1 n2 enc st) as NE.
  split; [split|];
    [ intros [message Hex]; elim (NE message Hex)
    | | intros message Hex; elim (NE message Hex) ].
  rewrite E; cbn [idPrefix idLength secretLength encoding].
  intros [N|[N|[N|N]]]; exfalso; apply N.
  - exists p; auto.
  - exists n1, L1; auto.
  - exists n2, L2; auto.
  - apply KnownEncoding_name.
Qed.

Lemma generateOAuthCredentials_validation_error_witness :
  exists message,
    fst (generateOAuthCredentials
           (Some (mkOptions VUndefined VUndefined VUndefined (VString "bogus")))
           sampleEntropy) = Throw (Error message).
Proof.
  apply (proj2 (proj1 (generateOAuthCredentials_validation_error
                         (mkOptions VUndefined VUndefined VUndefined (VString "bogus"))
                         sampleEntropy))).
  right; right; right. intros [E|[E|E]]; discriminate.
Defined.

(** C6.  The checks run in the order [idPrefix], [idLength],
    [secretLength], [encoding], before anything is generated; the first one
    that fails decides the error, whatever the later options are; and a call
    that fails a check leaves the entropy pool as it found it. *)
Theorem generateOAuthCredentials_validation_order
    (o : OAuthCredentialsOptions) (st : Entropy) :
  let e := effective o in
  let run := generateOAuthCredentials (Some o) st in
  (~ NonEmptyString (idPrefix e) ->
   run = (Throw (Error "idPrefix must be a non-empty string"), st)) /\
  (NonEmptyString (idPrefix e) -> ~ PositiveInteger (idLength e) ->
   run = (Throw (Error "idLength must be a positive integer"), st)) /\
  (NonEmptyString (idPrefix e) -> PositiveInteger (idLength e) ->
   ~ PositiveInteger (secretLength e) ->
   run = (Throw (Error "secretLength must be a positive integer"), st)) /\
  (NonEmptyString (idPrefix e) -> PositiveInteger (idLength e) ->
   PositiveInteger (secretLength e) -> ~ KnownEncoding (encoding e) ->
   run = (Throw (Error "encoding must be one of: hex, base64, base64url"), st)) /\
  (forall message st', run = (Throw (Error message), st') -> st' = st).
Proof.
  intros e run; subst e run.
  destruct (generateOAuthCredentials_cases o st)
    as [[N R]|[(V & N & R)|[(V & V1 & N & R)|[(V & V1 & V2 & N & R)|S]]]].
  1-4: repeat split; intros; try tauto; try exact R;
    match goal with
    | H : generateOAuthCredentials _ _ = _ |- _ => rewrite R in H; now injection H
    end.
  destruct S as (p & n1 & L1 & n2 & L2 & enc & E & Hp & I1 & H1 & I2 & H2 & R).
  assert (NonEmptyString (idPrefix (effective o)))
    by (rewrite E; exists p; auto).
  assert (PositiveInteger (idLength (effective o)))
    by (rewrite E; exists n1, L1; auto).
  assert (PositiveInteger (secretLength (effective o)))
    by (rewrite E; exists n2, L2; auto).
  assert (KnownEncoding (encoding (effective o)))
    by (rewrite E; apply KnownEncoding_name).
  repeat split; intros; try tauto.
  match goal with
  | H : generateOAuthCredentials _ _ = _ |- _ =>
      rewrite R in H; apply (f_equal fst) in H;
      elim (NoError_assemble p n1 n2 enc st _ H)
  end.
Qed.

Lemma generateOAuthCredentials_validation_order_witness :
  generateOAuthCredentials
    (Some (mkOptions (VString "") (VNumber (ofZ 0)) VNull (VString "bogus")))
    sampleEntropy =
  (Throw (Error "idPrefix must be a non-empty string"), sampleEntropy).
Proof.
  apply (proj1 (generateOAuthCredentials_validation_order
                  (mkOptions (VString "") (VNumber (ofZ 0)) VNull (VString "bogus"))
                  sampleEntropy)).
  intros [s [E N]]; injection E as <-; apply N; reflexivity.
Defined.

(** C7, as the specification states it, fails: the options with
    [secretLength] 4294967296 and the encoding hex are valid, yet the call
    throws the RangeError of the random source, after the 12 bytes of the
    identifier are drawn. *)
Lemma generateOAuthCredentials_shape_fails :
  PositiveInteger (VNumber (ofZ 4294967296)) /\
  fst (generateOAuthCredentials
         (Some (mkOptions VUndefined VUndefined (VNumber (ofZ 4294967296))
                  (VString "hex")))
         sampleEntropy) = Throw (RangeError "ERR_OUT_OF_RANGE") /\
  drawn (snd (generateOAuthCredentials
                (Some (mkOptions VUndefined VUndefined (VNumber (ofZ 4294967296))
                         (VString "hex")))
                sampleEntropy)) = 12.
Proof.
  split; [rewrite PositiveInteger_ofZ; lia|].
  split; vm_compute; reflexivity.
Qed.

(** C7, amended.  For every valid options value whose [idLength] and
    [secretLength] are at most the longest length of the encoding
    (536870888 for hex, 536870885 for base64 and base64url) and whose
    [clientId] is no longer than the longest string, the result is a pair
    whose [clientId] is the effective prefix, one underscore, and a random
    part of exactly [idLength] characters, and whose [clientSecret] is the
    generator's output of exactly [secretLength] characters, as it comes;
    both are produced by [generateRandomString] with the same encoding, the
    identifier first. *)
Theorem generateOAuthCredentials_shape
    (o : OAuthCredentialsOptions) (st : Entropy)
    (p : string) (n1 : number) (L1 : Z) (n2 : number) (L2 : Z)
    (enc : EncodingFormat) :
  effective o =
    mkOptions (VString p) (VNumber n1) (VNumber n2) (VString (encodingName enc)) ->
  p <> "" -> IsInt n1 L1 -> (1 <= L1)%Z -> IsInt n2 L2 -> (1 <= L2)%Z ->
  (L1 <= longestLength enc)%Z -> (L2 <= longestLength enc)%Z ->
  (Str.jsLength p + 1 + L1 <= Str.kStringMaxLength)%Z ->
  exists r1 st1 r2 st2,
    generateRandomString n1 (Some enc) st = (Normal r1, st1) /\
    generateRandomString n2 (Some enc) st1 = (Normal r2, st2) /\
    Z.of_nat (String.length r1) = L1 /\
    Z.of_nat (String.length r2) = L2 /\
    generateOAuthCredentials (Some o) st =
    (Normal {| clientId := p ++ "_" ++ r1; clientSecret := r2 |}, st2).
Proof.
  intros E Hp I1 H1 I2 H2 M1 M2 Fit.
  rewrite (valid_resolved o p n1 L1 n2 L2 enc st E Hp I1 H1 I2 H2).
  destruct (assemble_within p n1 L1 n2 L2 enc st I1 (conj H1 M1) I2 (conj H2 M2) Fit)
    as (G1 & G2 & Len1 & Len2 & _ & _ & R).
  do 4 eexists. repeat split; eassumption.
Qed.

Lemma generateOAuthCredentials_shape_witness :
  exists r1 st1 r2 st2,
    generateRandomString (ofZ 16) (Some hex) sampleEntropy = (Normal r1, st1) /\
    generateRandomString (ofZ 48) (Some hex) st1 = (Normal r2, st2) /\
    Z.of_nat (String.length r1) = 16%Z /\
    Z.of_nat (String.length r2) = 48%Z /\
    generateOAuthCredentials
      (Some (mkOptions (VString "p") (VNumber (ofZ 16)) VUndefined (VString "hex")))
      sampleEntropy =
    (Normal {| clientId := "p" ++ "_" ++ r1; clientSecret := r2 |}, st2).
Proof.
  apply (generateOAuthCredentials_shape
           (mkOptions (VString "p") (VNumber (ofZ 16)) VUndefined (VString "hex"))
           sampleEntropy "p" (ofZ 16) 16 (ofZ 48) 48 hex);
    [ reflexivity | discriminate | reflexivity | lia | reflexivity | lia
    | simpl; lia | simpl; lia | vm_compute; discriminate ].
Defined.

(** C8.  Every option of [generateOAuthCredentials] that is omitted takes
    its default on its own, whichever of the others are given: "oauth" for
    [idPrefix], 24 for [idLength], 48 for [secretLength], "base64url" for
    [encoding]; the call without options uses all four.  The encoding
    parameter of [generateRandomString] defaults to "hex", a different
    encoding: without it the result is cut from the hexadecimal text of
    [ceil(length / 2)] bytes. *)
Theorem defaults
    (st : Entropy) (p : string) (n1 : number) (L1 : Z) (n2 : number) (L2 : Z)
    (enc : EncodingFormat) :
  p <> "" -> (Str.jsLength p + 1 + L1 <= Str.kStringMaxLength)%Z ->
  (Str.jsLength p + 1 + 24 <= Str.kStringMaxLength)%Z ->
  IsInt n1 L1 -> (1 <= L1 <= 536870882)%Z ->
  IsInt n2 L2 -> (1 <= L2 <= 536870885)%Z ->
  Generates None st "oauth" (ofZ 24) (ofZ 48) base64url /\
  (forall noPrefix noIdLength noSecretLength noEncoding : bool,
      Generates
        (Some (mkOptions
                 (if noPrefix then VUndefined else VString p)
                 (if noIdLength then VUndefined else VNumber n1)
                 (if noSecretLength then VUndefined else VNumber n2)
                 (if noEncoding then VUndefined else VString (encodingName enc))))
        st
        (if noPrefix then "oauth" else p)
        (if noIdLength then ofZ 24 else n1)
        (if noSecretLength then ofZ 48 else n2)
        (if noEncoding then base64url else enc)) /\
  generateRandomString n1 None st =
  (Normal (String.substring 0 (Z.to_nat L1)
             (Buffer.toHex (nextBytes st (Z.to_nat (ceilDiv L1 2))))),
   mkEntropy (pool st) (drawn st + Z.to_nat (ceilDiv L1 2))) /\
  fst (generateRandomString (ofZ 5) None sampleEntropy) <>
  fst (generateRandomString (ofZ 5) (Some base64url) sampleEntropy).
Proof.
  intros Hp FitP Fit24 I1 H1 I2 H2.
  assert (G : forall o q m1 K1 m2 K2 e,
             effective o =
               mkOptions (VString q) (VNumber m1) (VNumber m2)
                 (VString (encodingName e)) ->
             q <> "" -> IsInt m1 K1 -> (1 <= K1 <= longestLength e)%Z ->
             IsInt m2 K2 -> (1 <= K2 <= longestLength e)%Z ->
             (Str.jsLength q + 1 + K1 <= Str.kStringMaxLength)%Z ->
             Generates (Some o) st q m1 m2 e).
  { intros o q m1 K1 m2 K2 e E Hq J1 B1 J2 B2 Fit. unfold Generates.
    rewrite (valid_resolved o q m1 K1 m2 K2 e st E Hq J1 ltac:(lia) J2 ltac:(lia)).
    destruct (assemble_within q m1 K1 m2 K2 e st J1 B1 J2 B2 Fit)
      as (G1 & G2 & _ & _ & _ & _ & R).
    do 4 eexists. repeat split; eassumption. }
  assert (Long : forall e, (536870885 <= longestLength e)%Z)
    by (intros []; unfold longestLength; lia).
  unfold Str.kStringMaxLength in *.
  split; [|split; [|split]].
  - assert (N : generateOAuthCredentials None st =
                generateOAuthCredentials (Some emptyOptions) st)
      by (unfold generateOAuthCredentials; reflexivity).
    unfold Generates; rewrite N.
    apply (G emptyOptions "oauth" (ofZ 24) 24%Z (ofZ 48) 48%Z base64url);
      [ reflexivity | discriminate | reflexivity | unfold longestLength; lia
      | reflexivity | unfold longestLength; lia | vm_compute; discriminate ].
  - intros noPrefix noIdLength noSecretLength noEncoding.
    pose proof (Long enc). pose proof (Long base64url).
    destruct noPrefix, noIdLength, noSecretLength, noEncoding;
      (eapply G;
       [ reflexivity | assumption || discriminate
       | eassumption || reflexivity | try lia
       | eassumption || reflexivity | try lia
       | try (change (Str.jsLength "oauth") with 5%Z); lia ]).
  - destruct (generateRandomString_result n1 L1 hex st I1
                ltac:(unfold longestLength; lia)) as [R _].
    exact R.
  - vm_compute; discriminate.
Qed.

Lemma defaults_witness :
  Generates None sampleEntropy "oauth" (ofZ 24) (ofZ 48) base64url /\
  (forall noPrefix noIdLength noSecretLength noEncoding : bool,
      Generates
        (Some (mkOptions
                 (if noPrefix then VUndefined else VString "p")
                 (if noIdLength then VUndefined else VNumber (ofZ 16))
                 (if noSecretLength then VUndefined else VNumber (ofZ 32))
                 (if noEncoding then VUndefined else VString (encodingName hex))))
        sampleEntropy
        (if noPrefix then "oauth" else "p")
        (if noIdLength then ofZ 24 else ofZ 16)
        (if noSecretLength then ofZ 48 else ofZ 32)
        (if noEncoding then base64url else hex)) /\
  generateRandomString (ofZ 16) None sampleEntropy =
  (Normal (String.substring 0 (Z.to_nat 16)
             (Buffer.toHex (nextBytes sampleEntropy (Z.to_nat (ceilDiv 16 2))))),
   mkEntropy (pool sampleEntropy) (drawn sampleEntropy + Z.to_nat (ceilDiv 16 2))) /\
  fst (generateRandomString (ofZ 5) None sampleEntropy) <>
  fst (generateRandomString (ofZ 5) (Some base64url) sampleEntropy).
Proof.
  apply (defaults sampleEntropy "p" (ofZ 16) 16 (ofZ 32) 32 hex);
    [ discriminate | vm_compute; discriminate | vm_compute; discriminate
    | reflexivity | lia | reflexivity | lia ].
Defined.

(* ------------------------------------------------------------------ *)
(** ** The command line on concrete inputs *)

Example parseInt_samples :
  map ParseInt.parseInt
    ["42"; "  +7x"; "-0"; "- 5"; "1e3"; "0x10"; ""; "abc"; "007"; "-12.9"] =
  [ofZ 42; ofZ 7; ofZ 0; NaN; ofZ 1; ofZ 0; NaN; NaN; ofZ 7; ofZ (-12)].
Proof. reflexivity. Qed.

Example parseInt_skips_unicode_space :
  ParseInt.parseInt (utf8 [194; 160; 226; 128; 175; 239; 187; 191; 9]%N ++ "16") =
  ofZ 16.
Proof. reflexivity. Qed.

Example parseInt_of_undefined : ParseInt.parseIntArg None = NaN.
Proof. reflexivity. Qed.

Example parseInt_rounds_sixteen_digits :
  ParseInt.parseInt "9007199254740993" = ofZ 9007199254740992.
Proof. vm_compute. reflexivity. Qed.

Example nearestDouble_overflows :
  ParseInt.nearestDouble (2 ^ 1024 - 2 ^ 970 - 1) = ofZ (2 ^ 1024 - 2 ^ 971) /\
  ParseInt.nearestDouble (2 ^ 1024 - 2 ^ 970) = PosInfinity.
Proof. split; vm_compute; reflexivity. Qed.

Example JSON_quote_escapes :
  JSON.quote ("a" ++ doubleQuote ++ backslash ++ utf8 [10; 1; 127; 195; 169]%N) =
  doubleQuote ++ "a" ++ backslash ++ doubleQuote ++ backslash ++ backslash
  ++ backslash ++ "n" ++ backslash ++ "u0001" ++ utf8 [127; 195; 169]%N
  ++ doubleQuote.
Proof. reflexivity. Qed.

Example main_json_run :
  let run :=
    main samplePlatform
      ["node"; "generate-oauth"; "--prefix"; "p"; "--id-length"; " 12.7";
       "--json"; "--encoding"; "hex"] sampleWorld in
  fst run = Returned tt /\
  console (snd run) =
  [Stdout
     ("{" ++ newline
      ++ "  " ++ doubleQuote ++ "clientId" ++ doubleQuote ++ ": "
      ++ doubleQuote ++ "p_fa1f44698eb3" ++ doubleQuote ++ "," ++ newline
      ++ "  " ++ doubleQuote ++ "clientSecret" ++ doubleQuote ++ ": "
      ++ doubleQuote ++ "d8fd22476c91b6db00254a6f94b9de03284d7297bce1062b"
      ++ doubleQuote ++ newline
      ++ "}")].
Proof. split; vm_compute; reflexivity. Qed.

Example main_default_run :
  let run := main samplePlatform ["node"; "generate-oauth"] sampleWorld in
  fst run = Returned tt /\
  console (snd run) =
  [Stdout generatedHeader;
   Stdout "Client ID:     oauth_-h9EaY6z2P0iR2yRttsAJUpv";
   Stdout "Client Secret: 3gMoTXKXvOEGK1B1mr_kCS5TeJ3C5wwxVnugxeoPNFl-o8jt";
   Stdout securityReminder] /\
  drawn (entropy (snd run)) = 58.
Proof. repeat split; vm_compute; reflexivity. Qed.

Example main_trailing_prefix_uses_default :
  console (snd (main samplePlatform ["node"; "generate-oauth"; "-p"; "x"; "--prefix"]
                  sampleWorld)) =
  console (snd (main samplePlatform ["node"; "generate-oauth"] sampleWorld)).
Proof. vm_compute; reflexivity. Qed.

Example main_huge_secret_run :
  let run :=
    main samplePlatform
      ["node"; "generate-oauth"; "--secret-length"; "4294967296";
       "--encoding"; "hex"] sampleWorld in
  fst run = Exited 1 /\
  console (snd run) = [Stderr "Error: ERR_OUT_OF_RANGE"] /\
  drawn (entropy (snd run)) = 12.
Proof. repeat split; vm_compute; reflexivity. Qed.

Example main_trailing_length_fails :
  let run := main samplePlatform ["node"; "generate-oauth"; "--id-length"] sampleWorld in
  fst run = Exited 1 /\
  console (snd run) = [Stderr "Error: idLength must be a positive integer"].
Proof. split; vm_compute; reflexivity. Qed.

Example helpText_lines :
  String.length helpText = 679 /\
  String.substring 0 32 helpText = newline ++ "Usage: generate-oauth [options]".
Proof. split; vm_compute; reflexivity. Qed.

(* ------------------------------------------------------------------ *)
(** ** [generateRandomString] off the integers at least 1 *)

Section EdgeLengths.

Lemma Qceiling_upper (x : Q) (hi : Z) :
  (x <= inject_Z hi)%Q -> (Qceiling x <= hi)%Z.
Proof.
  intros H. pose proof (Qceiling_lt x) as L.
  assert (B : (inject_Z (Qceiling x - 1) < inject_Z hi)%Q)
    by (eapply Qlt_le_trans; eassumption).
  rewrite <- Zlt_Qlt in B. lia.
Qed.

Lemma Qceiling_lower (x : Q) (lo : Z) :
  (inject_Z lo < x)%Q -> (lo < Qceiling x)%Z.
Proof.
  intros H. pose proof (Qle_ceiling x) as L.
  assert (B : (inject_Z lo < inject_Z (Qceiling x))%Q)
    by (eapply Qlt_le_trans; eassumption).
  now rewrite <- Zlt_Qlt in B.
Qed.

Lemma byteCount_Finite (q : Q) (enc : EncodingFormat) :
  IsInt (byteCount (Finite q) enc) (byteCountQ q enc).
Proof.
  destruct enc; unfold byteCount; simpl; try reflexivity;
    now rewrite inject_Z_plus.
Qed.

Lemma clampIndex_nonneg (q : Q) (len : nat) :
  (0 <= q)%Q ->
  Num.clampIndex (Finite q) len = Nat.min (Z.to_nat (Qfloor q)) len.
Proof.
  destruct q as [a b]; unfold Qle; simpl; intros H.
  rewrite Z.quot_div_nonneg by lia.
  pose proof (Z.div_pos a (Z.pos b) ltac:(lia) ltac:(lia)). lia.
Qed.

Lemma clampIndex_negative (q : Q) (len : nat) :
  (q < 0)%Q -> Num.clampIndex (Finite q) len = Nat.min 0 len.
Proof.
  destruct q as [a b]; unfold Qlt; simpl; intros H.
  assert (E : (a ÷ Z.pos b <= 0)%Z).
  { rewrite <- (Z.opp_involutive a), Z.quot_opp_l by lia.
    pose proof (Z.quot_pos (- a) (Z.pos b) ltac:(lia) ltac:(lia)). lia. }
  lia.
Qed.

(** The encoding of at least the bytes the specification's count asks for
    is long enough. *)
Lemma body_long_enough (L : Z) (enc : EncodingFormat) (buf : Buffer.t) :
  (0 <= L)%Z -> Z.to_nat (byteCountZ L enc) <= List.length buf ->
  Z.to_nat L <= String.length (encodedText enc buf).
Proof.
  intros HL Hlen.
  pose proof (ceilDiv_spec L 2 ltac:(lia)).
  pose proof (ceilDiv_spec (L * 3) 4 ltac:(lia)).
  destruct enc; unfold encodedText; cbn [Buffer.encode]; simpl in Hlen.
  - rewrite toHex_length; lia.
  - rewrite toBase64_split, length_append.
    pose proof (toBase64_unpadded_length Buffer.base64Alphabet buf); lia.
  - rewrite urlSafe_toBase64.
    pose proof (toBase64_unpadded_length Buffer.base64urlAlphabet buf); lia.
Qed.

Lemma byteCountQ_floor (q : Q) (enc : EncodingFormat) :
  (byteCountZ (Qfloor q) enc <= byteCountQ q enc)%Z.
Proof.
  pose proof (Qfloor_le q) as F.
  destruct enc; simpl.
  - rewrite <- (Qceiling_div (inject_Z (Qfloor q)) (Qfloor q) 2)
      by (lia || reflexivity).
    apply Qceiling_resp_le. change (inject_Z 2) with (2 # 1)%Q.
    unfold Qdiv; change (/ (2 # 1))%Q with (1 # 2)%Q. lra.
  - rewrite <- (Qceiling_div (inject_Z (Qfloor q) * inject_Z 3) (Qfloor q * 3) 4)
      by (lia || now rewrite inject_Z_mult).
    apply Z.add_le_mono_r, Qceiling_resp_le.
    change (inject_Z 3) with (3 # 1)%Q; change (inject_Z 4) with (4 # 1)%Q.
    unfold Qdiv; change (/ (4 # 1))%Q with (1 # 4)%Q. lra.
  - rewrite <- (Qceiling_div (inject_Z (Qfloor q) * inject_Z 3) (Qfloor q * 3) 4)
      by (lia || now rewrite inject_Z_mult).
    apply Z.add_le_mono_r, Qceiling_resp_le.
    change (inject_Z 3) with (3 # 1)%Q; change (inject_Z 4) with (4 # 1)%Q.
    unfold Qdiv; change (/ (4 # 1))%Q with (1 # 4)%Q. lra.
Qed.

(** The byte count grows no faster than the length. *)
Lemma byteCountQ_ceiling (q : Q) (L : Z) (enc : EncodingFormat) :
  (q <= inject_Z L)%Q -> (byteCountQ q enc <= byteCountZ L enc)%Z.
Proof.
  intros H. destruct enc; simpl.
  - rewrite <- (Qceiling_div (inject_Z L) L 2) by (lia || reflexivity).
    apply Qceiling_resp_le. change (inject_Z 2) with (2 # 1)%Q.
    unfold Qdiv; change (/ (2 # 1))%Q with (1 # 2)%Q. lra.
  - rewrite <- (Qceiling_div (inject_Z L * inject_Z 3) (L * 3) 4)
      by (lia || now rewrite inject_Z_mult).
    apply Z.add_le_mono_r, Qceiling_resp_le.
    change (inject_Z 3) with (3 # 1)%Q; change (inject_Z 4) with (4 # 1)%Q.
    unfold Qdiv; change (/ (4 # 1))%Q with (1 # 4)%Q. lra.
  - rewrite <- (Qceiling_div (inject_Z L * inject_Z 3) (L * 3) 4)
      by (lia || now rewrite inject_Z_mult).
    apply Z.add_le_mono_r, Qceiling_resp_le.
    change (inject_Z 3) with (3 # 1)%Q; change (inject_Z 4) with (4 # 1)%Q.
    unfold Qdiv; change (/ (4 # 1))%Q with (1 # 4)%Q. lra.
Qed.

Lemma rawLength_monotone (enc : EncodingFormat) (a b : Z) :
  (a <= b)%Z -> (rawLength enc a <= rawLength enc b)%Z.
Proof.
  intros H.
  pose proof (ceilDiv_spec a 3 ltac:(lia)).
  pose proof (ceilDiv_spec b 3 ltac:(lia)).
  destruct enc; unfold rawLength; lia.
Qed.

End EdgeLengths.

Ltac rational_constants :=
  change (inject_Z 0) with 0%Q in *;
  change (inject_Z 2) with (2 # 1)%Q in *;
  change (inject_Z 3) with (3 # 1)%Q in *;
  change (inject_Z 4) with (4 # 1)%Q in *;
  change (inject_Z (-1)) with (-1 # 1)%Q in *;
  change (inject_Z (-2)) with (-2 # 1)%Q in *;
  change (inject_Z (-3)) with (-3 # 1)%Q in *;
  change (inject_Z (-4)) with (-4 # 1)%Q in *;
  unfold Qdiv in *;
  change (/ (2 # 1))%Q with (1 # 2)%Q in *;
  change (/ (4 # 1))%Q with (1 # 4)%Q in *.

Lemma prefix_zero (s : string) : String.substring 0 0 s = "".
Proof. destruct s; reflexivity. Qed.

Lemma byteCountQ_nonneg (q : Q) (enc : EncodingFormat) :
  (0 <= q)%Q -> (0 <= byteCountQ q enc)%Z.
Proof.
  intros H.
  assert (0 <= Qfloor q)%Z
    by (change 0%Z with (Qfloor 0); now apply Qfloor_resp_le).
  pose proof (byteCountZ_nonneg (Qfloor q) enc ltac:(assumption)).
  pose proof (byteCountQ_floor q enc). lia.
Qed.

(** X1.  A finite length from 0 up to the longest length of the encoding,
    integer or not, is truncated: the call returns exactly [floor(length)]
    characters, in each encoding. *)
Theorem generateRandomString_fractional_length
    (q : Q) (enc : EncodingFormat) (st : Entropy) :
  (0 <= q)%Q -> (q <= inject_Z (longestLength enc))%Q ->
  exists s st',
    generateRandomString (Finite q) (Some enc) st = (Normal s, st') /\
    Z.of_nat (String.length s) = Qfloor q.
Proof.
  intros H HM.
  assert (F : (0 <= Qfloor q)%Z)
    by (change 0%Z with (Qfloor 0); now apply Qfloor_resp_le).
  pose proof (byteCountQ_nonneg q enc H) as HB.
  pose proof (byteCountQ_floor q enc) as HF.
  pose proof (byteCountQ_ceiling q (longestLength enc) enc HM) as HC.
  assert (HL : (0 <= longestLength enc <= longestLength enc)%Z)
    by (destruct enc; unfold longestLength; lia).
  destruct (within_limits (longestLength enc) enc HL) as [[_ K] T].
  pose proof (rawLength_monotone enc _ _ HC) as RM.
  rewrite (generateRandomString_run (Finite q) enc st (byteCountQ q enc)
             (Z.to_nat (Qfloor q)) (byteCount_Finite q enc) ltac:(lia)
             (fun len => clampIndex_nonneg q len H)).
  destruct (Z.ltb_spec Str.kStringMaxLength (rawLength enc (byteCountQ q enc)));
    [lia|].
  eexists; eexists; split; [reflexivity|].
  assert (Hlong : Z.to_nat (Qfloor q) <=
                  String.length
                    (encodedText enc (nextBytes st (Z.to_nat (byteCountQ q enc))))).
  { apply body_long_enough; [exact F|]. rewrite nextBytes_length. lia. }
  rewrite Nat.min_l by exact Hlong.
  rewrite prefix_length by exact Hlong. lia.
Qed.

Lemma generateRandomString_fractional_length_witness :
  exists s st',
    generateRandomString (Finite (7 # 2)) (Some base64url) sampleEntropy =
    (Normal s, st') /\
    Z.of_nat (String.length s) = Qfloor (7 # 2).
Proof.
  apply (generateRandomString_fractional_length (7 # 2) base64url sampleEntropy);
    unfold Qle; simpl; lia.
Defined.

(** X2.  A negative length never yields a character.  At -2 or below for
    hex, and at -4 or below for base64 and base64url, the byte count is
    negative and the random source refuses it with a RangeError, nothing
    drawn; above that the call returns the empty string, and for the base 64
    variants it may still have drawn up to 2 bytes. *)
Theorem generateRandomString_negative_length
    (q : Q) (enc : EncodingFormat) (st : Entropy) :
  (q < 0)%Q ->
  let bound := match enc with hex => (-2)%Z | _ => (-4)%Z end in
  ((q <= inject_Z bound)%Q ->
   generateRandomString (Finite q) (Some enc) st =
   (Throw (RangeError "ERR_OUT_OF_RANGE"), st)) /\
  ((inject_Z bound < q)%Q ->
   exists k : nat,
     k <= 2 /\ (enc = hex -> k = 0) /\
     generateRandomString (Finite q) (Some enc) st =
     (Normal "", mkEntropy (pool st) (drawn st + k))).
Proof.
  intros Hneg bound.
  pose proof (byteCount_Finite q enc) as EB.
  assert (Low : (q <= inject_Z bound)%Q -> (byteCountQ q enc < 0)%Z).
  { intros H; subst bound; destruct enc; simpl;
      [ enough (Qceiling (q / inject_Z 2) <= -1)%Z by lia
      | enough (Qceiling (q * inject_Z 3 / inject_Z 4) <= -3)%Z by lia
      | enough (Qceiling (q * inject_Z 3 / inject_Z 4) <= -3)%Z by lia ];
      apply Qceiling_upper; rational_constants; lra. }
  assert (High : (inject_Z bound < q)%Q ->
                 (0 <= byteCountQ q enc <= 2)%Z /\
                 (enc = hex -> byteCountQ q enc = 0%Z)).
  { intros H; subst bound; destruct enc; simpl.
    - assert (-1 < Qceiling (q / inject_Z 2))%Z
        by (apply Qceiling_lower; rational_constants; lra).
      assert (Qceiling (q / inject_Z 2) <= 0)%Z
        by (apply Qceiling_upper; rational_constants; lra).
      split; [lia | intros _; lia].
    - assert (-3 < Qceiling (q * inject_Z 3 / inject_Z 4))%Z
        by (apply Qceiling_lower; rational_constants; lra).
      assert (Qceiling (q * inject_Z 3 / inject_Z 4) <= 0)%Z
        by (apply Qceiling_upper; rational_constants; lra).
      split; [lia | discriminate].
    - assert (-3 < Qceiling (q * inject_Z 3 / inject_Z 4))%Z
        by (apply Qceiling_lower; rational_constants; lra).
      assert (Qceiling (q * inject_Z 3 / inject_Z 4) <= 0)%Z
        by (apply Qceiling_upper; rational_constants; lra).
      split; [lia | discriminate]. }
  split.
  - intros H.
    apply (generateRandomString_refused _ _ _ _ EB (or_introl (Low H))).
  - intros H. destruct (High H) as [[H0 H2] Hhex].
    exists (Z.to_nat (byteCountQ q enc)).
    split; [lia|]. split; [intros E; rewrite (Hhex E); reflexivity|].
    rewrite (generateRandomString_run (Finite q) enc st (byteCountQ q enc) 0
               EB ltac:(unfold Crypto.kMaxLength; lia)
               (fun len => clampIndex_negative q len Hneg)).
    assert (T : (rawLength enc (byteCountQ q enc) <= 4)%Z).
    { pose proof (ceilDiv_spec (byteCountQ q enc) 3 ltac:(lia)).
      destruct enc; unfold rawLength; lia. }
    destruct (Z.ltb_spec Str.kStringMaxLength (rawLength enc (byteCountQ q enc)));
      [unfold Str.kStringMaxLength in *; lia|].
    now rewrite Nat.min_0_l, prefix_zero.
Qed.

Lemma generateRandomString_negative_length_witness :
  generateRandomString (Finite (-3 # 1)) (Some hex) sampleEntropy =
  (Throw (RangeError "ERR_OUT_OF_RANGE"), sampleEntropy) /\
  exists k : nat,
    k <= 2 /\ (base64 = hex -> k = 0) /\
    generateRandomString (Finite (-3 # 1)) (Some base64) sampleEntropy =
    (Normal "", mkEntropy (pool sampleEntropy) (drawn sampleEntropy + k)).
Proof.
  assert (H : (-3 # 1 < 0)%Q) by (unfold Qlt; simpl; lia).
  split.
  - apply (proj1 (generateRandomString_negative_length
                    (-3 # 1) hex sampleEntropy H)).
    unfold Qle; simpl; lia.
  - apply (proj2 (generateRandomString_negative_length
                    (-3 # 1) base64 sampleEntropy H)).
    unfold Qlt; simpl; lia.
Defined.

(** X3.  A length that is NaN or infinite makes the byte count NaN or
    infinite, which the random source refuses with a RangeError before
    anything is drawn, whatever the encoding. *)
Theorem generateRandomString_not_finite
    (n : number) (enc : option EncodingFormat) (st : Entropy) :
  (forall q, n <> Finite q) ->
  generateRandomString n enc st = (Throw (RangeError "ERR_OUT_OF_RANGE"), st).
Proof.
  intros H. destruct n as [q| | |]; [now elim (H q) | | | ];
    destruct enc as [[| |]|]; reflexivity.
Qed.

Lemma generateRandomString_not_finite_witness :
  generateRandomString NaN (Some base64url) sampleEntropy =
  (Throw (RangeError "ERR_OUT_OF_RANGE"), sampleEntropy).
Proof.
  apply (generateRandomString_not_finite NaN (Some base64url) sampleEntropy).
  discriminate.
Defined.

(** X18.  Beyond the longest length of the encoding (536870888 for hex,
    536870885 for base64 and base64url) a call on an integer length never
    returns: when the byte count is above the largest buffer (2147483647)
    the random source refuses it with a RangeError and nothing is drawn;
    otherwise the bytes are drawn and their text, longer than the longest
    string, is refused with ERR_STRING_TOO_LONG. *)
Theorem generateRandomString_beyond_longest
    (n : number) (L : Z) (enc : EncodingFormat) (st : Entropy) :
  IsInt n L -> (longestLength enc < L)%Z ->
  let k := match enc with
           | hex => ceilDiv L 2
           | base64 | base64url => (ceilDiv (L * 3) 4 + 2)%Z
           end in
  ((2147483647 < k)%Z ->
   generateRandomString n (Some enc) st =
   (Throw (RangeError "ERR_OUT_OF_RANGE"), st)) /\
  ((k <= 2147483647)%Z ->
   generateRandomString n (Some enc) st =
   (Throw (PlatformError "ERR_STRING_TOO_LONG"),
    mkEntropy (pool st) (drawn st + Z.to_nat k))).
Proof.
  intros E HL k.
  assert (K : k = byteCountZ L enc) by (destruct enc; reflexivity).
  destruct (generateRandomString_beyond n L enc st E HL) as [[B R]|[B R]];
    unfold Crypto.kMaxLength in B; rewrite <- K in B.
  - split; intros H; [exact R | lia].
  - split; intros H; [lia|]. rewrite R, <- K. reflexivity.
Qed.

Lemma generateRandomString_beyond_longest_witness :
  ((2147483647 < ceilDiv 4294967296 2)%Z ->
   generateRandomString (ofZ 4294967296) (Some hex) sampleEntropy =
   (Throw (RangeError "ERR_OUT_OF_RANGE"), sampleEntropy)) /\
  ((ceilDiv 4294967296 2 <= 2147483647)%Z ->
   generateRandomString (ofZ 4294967296) (Some hex) sampleEntropy =
   (Throw (PlatformError "ERR_STRING_TOO_LONG"),
    mkEntropy (pool sampleEntropy)
      (drawn sampleEntropy + Z.to_nat (ceilDiv 4294967296 2)))).
Proof.
  apply (generateRandomString_beyond_longest (ofZ 4294967296) 4294967296 hex
           sampleEntropy); [reflexivity | unfold longestLength; lia].
Defined.

(* ------------------------------------------------------------------ *)
(** ** [generateOAuthCredentials]: the bytes behind the pair *)

(** X4.  For valid options within the platform's limits (lengths up to the
    longest of the encoding, a [clientId] no longer than the longest
    string) the identifier's random part is cut from the encoding of the
    next [k1] bytes of the pool and the secret from the encoding of the
    [k2] bytes after them, [k1] and [k2] being the byte counts of the two
    lengths: the two values share no random byte, and the call consumes
    [k1 + k2] bytes in all. *)
Theorem generateOAuthCredentials_entropy
    (o : OAuthCredentialsOptions) (st : Entropy)
    (p : string) (n1 : number) (L1 : Z) (n2 : number) (L2 : Z)
    (enc : EncodingFormat) :
  effective o =
    mkOptions (VString p) (VNumber n1) (VNumber n2) (VString (encodingName enc)) ->
  p <> "" -> IsInt n1 L1 -> (1 <= L1)%Z -> IsInt n2 L2 -> (1 <= L2)%Z ->
  (L1 <= longestLength enc)%Z -> (L2 <= longestLength enc)%Z ->
  (Str.jsLength p + 1 + L1 <= Str.kStringMaxLength)%Z ->
  let k1 := Z.to_nat (byteCountZ L1 enc) in
  let k2 := Z.to_nat (byteCountZ L2 enc) in
  generateOAuthCredentials (Some o) st =
  (Normal
     {| clientId :=
          p ++ "_" ++
          String.substring 0 (Z.to_nat L1)
            (encodedText enc (map (pool st) (seq (drawn st) k1)));
        clientSecret :=
          String.substring 0 (Z.to_nat L2)
            (encodedText enc (map (pool st) (seq (drawn st + k1) k2))) |},
   mkEntropy (pool st) (drawn st + k1 + k2)).
Proof.
  intros E Hp I1 H1 I2 H2 M1 M2 Fit k1 k2.
  rewrite (valid_resolved o p n1 L1 n2 L2 enc st E Hp I1 H1 I2 H2).
  destruct (assemble_within p n1 L1 n2 L2 enc st I1 (conj H1 M1) I2 (conj H2 M2) Fit)
    as (_ & _ & _ & _ & _ & _ & R).
  exact R.
Qed.

Lemma generateOAuthCredentials_entropy_witness :
  generateOAuthCredentials
    (Some (mkOptions (VString "p") (VNumber (ofZ 16)) VUndefined (VString "hex")))
    sampleEntropy =
  (Normal
     {| clientId :=
          "p" ++ "_" ++
          String.substring 0 (Z.to_nat 16)
            (encodedText hex
               (map (pool sampleEntropy)
                  (seq (drawn sampleEntropy) (Z.to_nat (byteCountZ 16 hex)))));
        clientSecret :=
          String.substring 0 (Z.to_nat 48)
            (encodedText hex
               (map (pool sampleEntropy)
                  (seq (drawn sampleEntropy + Z.to_nat (byteCountZ 16 hex))
                     (Z.to_nat (byteCountZ 48 hex))))) |},
   mkEntropy (pool sampleEntropy)
     (drawn sampleEntropy + Z.to_nat (byteCountZ 16 hex)
      + Z.to_nat (byteCountZ 48 hex))).
Proof.
  apply (generateOAuthCredentials_entropy
           (mkOptions (VString "p") (VNumber (ofZ 16)) VUndefined (VString "hex"))
           sampleEntropy "p" (ofZ 16) 16 (ofZ 48) 48 hex);
    [ reflexivity | discriminate | reflexivity | lia | reflexivity | lia
    | simpl; lia | simpl; lia | vm_compute; discriminate ].
Defined.

(** The random part of the identifier and the secret, by their characters. *)
Lemma generateOAuthCredentials_classes
    (o : OAuthCredentialsOptions) (st : Entropy)
    (p : string) (n1 : number) (L1 : Z) (n2 : number) (L2 : Z)
    (enc : EncodingFormat) :
  effective o =
    mkOptions (VString p) (VNumber n1) (VNumber n2) (VString (encodingName enc)) ->
  p <> "" -> IsInt n1 L1 -> (1 <= L1)%Z -> IsInt n2 L2 -> (1 <= L2)%Z ->
  (L1 <= longestLength enc)%Z -> (L2 <= longestLength enc)%Z ->
  (Str.jsLength p + 1 + L1 <= Str.kStringMaxLength)%Z ->
  exists r1 r2 st',
    generateOAuthCredentials (Some o) st =
    (Normal {| clientId := p ++ "_" ++ r1; clientSecret := r2 |}, st') /\
    Z.of_nat (String.length r1) = L1 /\ Z.of_nat (String.length r2) = L2 /\
    Str.all (charClass enc) r1 = true /\
    Str.all (charClass enc) r2 = true.
Proof.
  intros E Hp I1 H1 I2 H2 M1 M2 Fit.
  rewrite (valid_resolved o p n1 L1 n2 L2 enc st E Hp I1 H1 I2 H2).
  destruct (assemble_within p n1 L1 n2 L2 enc st I1 (conj H1 M1) I2 (conj H2 M2) Fit)
    as (_ & _ & Len1 & Len2 & C1 & C2 & R).
  do 3 eexists. split; [exact R|]. repeat split; assumption.
Qed.

(** X5.  For valid options within the platform's limits the random part of
    [clientId] and the whole of [clientSecret] use only the characters of
    the chosen encoding: [0-9a-f] for hex, [A-Za-z0-9+/] without padding for
    base64, [A-Za-z0-9_-] for base64url. *)
Theorem generateOAuthCredentials_alphabet
    (o : OAuthCredentialsOptions) (st : Entropy)
    (p : string) (n1 : number) (L1 : Z) (n2 : number) (L2 : Z)
    (enc : EncodingFormat) :
  effective o =
    mkOptions (VString p) (VNumber n1) (VNumber n2) (VString (encodingName enc)) ->
  p <> "" -> IsInt n1 L1 -> (1 <= L1)%Z -> IsInt n2 L2 -> (1 <= L2)%Z ->
  (L1 <= longestLength enc)%Z -> (L2 <= longestLength enc)%Z ->
  (Str.jsLength p + 1 + L1 <= Str.kStringMaxLength)%Z ->
  exists r1 r2 st',
    generateOAuthCredentials (Some o) st =
    (Normal {| clientId := p ++ "_" ++ r1; clientSecret := r2 |}, st') /\
    Str.all (charClass enc) r1 = true /\
    Str.all (charClass enc) r2 = true.
Proof.
  intros E Hp I1 H1 I2 H2 M1 M2 Fit.
  destruct (generateOAuthCredentials_classes o st p n1 L1 n2 L2 enc
              E Hp I1 H1 I2 H2 M1 M2 Fit) as (r1 & r2 & st' & R & _ & _ & C1 & C2).
  exists r1, r2, st'. repeat split; assumption.
Qed.

Lemma generateOAuthCredentials_alphabet_witness :
  exists r1 r2 st',
    generateOAuthCredentials
      (Some (mkOptions (VString "prod") (VNumber (ofZ 32)) (VNumber (ofZ 64))
               (VString "hex")))
      sampleEntropy =
    (Normal {| clientId := "prod" ++ "_" ++ r1; clientSecret := r2 |}, st') /\
    Str.all (charClass hex) r1 = true /\
    Str.all (charClass hex) r2 = true.
Proof.
  apply (generateOAuthCredentials_alphabet
           (mkOptions (VString "prod") (VNumber (ofZ 32)) (VNumber (ofZ 64))
              (VString "hex"))
           sampleEntropy "prod" (ofZ 32) 32 (ofZ 64) 64 hex);
    [ reflexivity | discriminate | reflexivity | lia | reflexivity | lia
    | simpl; lia | simpl; lia | vm_compute; discriminate ].
Defined.

(* ------------------------------------------------------------------ *)
(** ** [parseArgs] *)

Section ParseArgs.

Variable pf : Platform.

(** Complete settings return without a word, and whatever follows them is
    parsed from the options they set. *)
Lemma parseArgsFrom_settings (pre : list string) :
  Settings pre ->
  forall (o : CliOptions) (w : World),
  exists o',
    parseArgsFrom pf pre o w = (Returned o', w) /\
    forall rest, parseArgsFrom pf (pre ++ rest) o w = parseArgsFrom pf rest o' w.
Proof.
  induction 1 as [|v pre _ IH|v pre _ IH|v pre _ IH|v pre _ IH|v pre _ IH|pre _ IH];
    intros o w.
  - exists o; split; [reflexivity | intros; reflexivity].
  - destruct (IH (withIdPrefix (argValue (Some v)) o) w) as (o' & R & C).
    exists o'; split; [exact R | intros rest; apply C].
  - destruct (IH (withIdPrefix (argValue (Some v)) o) w) as (o' & R & C).
    exists o'; split; [exact R | intros rest; apply C].
  - destruct (IH (withIdLength (VNumber (ParseInt.parseIntArg (Some v))) o) w)
      as (o' & R & C).
    exists o'; split; [exact R | intros rest; apply C].
  - destruct (IH (withSecretLength (VNumber (ParseInt.parseIntArg (Some v))) o) w)
      as (o' & R & C).
    exists o'; split; [exact R | intros rest; apply C].
  - destruct (IH (withEncoding (argValue (Some v)) o) w) as (o' & R & C).
    exists o'; split; [exact R | intros rest; apply C].
  - destruct (IH (withJson (VBoolean true) o) w) as (o' & R & C).
    exists o'; split; [exact R | intros rest; apply C].
Qed.

Lemma eqb_unknown (u f : string) :
  ~ In u knownFlags -> In f knownFlags -> String.eqb u f = false.
Proof.
  intros N I. destruct (String.eqb_spec u f) as [->|]; [contradiction | reflexivity].
Qed.

Lemma parseArgsFrom_unknown (u : string) (rest : list string)
    (o : CliOptions) (w : World) :
  ~ In u knownFlags ->
  parseArgsFrom pf (u :: rest) o w =
  (Exited 1,
   wrote w [Stderr ("Unknown option: " ++ u);
            Stdout "Use --help for usage information"]).
Proof.
  intros N. cbn [parseArgsFrom].
  rewrite (eqb_unknown u "--prefix" N), (eqb_unknown u "-p" N),
    (eqb_unknown u "--id-length" N), (eqb_unknown u "--secret-length" N),
    (eqb_unknown u "--encoding" N), (eqb_unknown u "--json" N),
    (eqb_unknown u "--help" N), (eqb_unknown u "-h" N),
    (eqb_unknown u "--version" N), (eqb_unknown u "-v" N)
    by (simpl; tauto).
  unfold pbind, console_error, console_log, process_exit, wrote; simpl.
  now rewrite <- app_assoc.
Qed.

(** [parseArgs] never throws, and exits with status 0 or 1 only; it leaves
    the entropy pool alone. *)
Lemma parseArgsFrom_outcome (args : list string) :
  forall (o : CliOptions) (w : World),
    (exists o', fst (parseArgsFrom pf args o w) = Returned o' /\
                snd (parseArgsFrom pf args o w) = w) \/
    ((fst (parseArgsFrom pf args o w) = Exited 0 \/
      fst (parseArgsFrom pf args o w) = Exited 1) /\
     entropy (snd (parseArgsFrom pf args o w)) = entropy w).
Proof.
  enough (H : (forall o w,
                  (exists o', fst (parseArgsFrom pf args o w) = Returned o' /\
                              snd (parseArgsFrom pf args o w) = w) \/
                  ((fst (parseArgsFrom pf args o w) = Exited 0 \/
                    fst (parseArgsFrom pf args o w) = Exited 1) /\
                   entropy (snd (parseArgsFrom pf args o w)) = entropy w)) /\
              (forall a o w,
                  (exists o', fst (parseArgsFrom pf (a :: args) o w) = Returned o' /\
                              snd (parseArgsFrom pf (a :: args) o w) = w) \/
                  ((fst (parseArgsFrom pf (a :: args) o w) = Exited 0 \/
                    fst (parseArgsFrom pf (a :: args) o w) = Exited 1) /\
                   entropy (snd (parseArgsFrom pf (a :: args) o w)) = entropy w)))
    by apply H.
  induction args as [|z args [IH0 IH1]].
  - split; [intros; left; eexists; split; reflexivity|].
    intros a o w; cbn [parseArgsFrom].
    repeat match goal with
           | |- context [if ?b then _ else _] => destruct b
           end;
      try (left; eexists; split; reflexivity);
      right; unfold showVersion; destruct (versionText pf); simpl; auto.
  - split; [exact (IH1 z)|].
    intros a o w. remember (z :: args) as rest eqn:Erest.
    cbn [parseArgsFrom].
    repeat match goal with
           | |- context [if ?b then _ else _] => destruct b
           end;
      subst rest; try apply IH1; try apply IH0;
      right; unfold showVersion; destruct (versionText pf); simpl; auto.
Qed.

End ParseArgs.

(** X6.  Arguments made of complete settings are parsed without exiting,
    throwing or printing, and the arguments after them are parsed from the
    options they set. *)
Theorem parseArgs_settings_then (pf : Platform) (pre : list string) (w : World) :
  Settings pre ->
  exists o,
    parseArgs pf pre w = (Returned o, w) /\
    forall rest, parseArgs pf (pre ++ rest) w = parseArgsFrom pf rest o w.
Proof. intros S. apply (parseArgsFrom_settings pf pre S noCliOptions w). Qed.

Lemma parseArgs_settings_then_witness :
  exists o,
    parseArgs samplePlatform ["--prefix"; "--json"; "--json"] sampleWorld =
    (Returned o, sampleWorld) /\
    forall rest,
      parseArgs samplePlatform (["--prefix"; "--json"; "--json"] ++ rest) sampleWorld =
      parseArgsFrom samplePlatform rest o sampleWorld.
Proof.
  apply (parseArgs_settings_then samplePlatform ["--prefix"; "--json"; "--json"] sampleWorld).
  repeat constructor.
Defined.









(** What [main] does once [parseArgs] has returned: a failure of the
    generator, or a line too long to build, is caught and reported. *)
Lemma main_parsed (pf : Platform) (argv : list string) (w : World) (o : CliOptions) :
  parseArgs pf (skipn 2 argv) w = (Returned o, w) ->
  main pf argv w =
  match generateOAuthCredentials (Some (generatorOptions o)) (entropy w) with
  | (Normal c, st') =>
      let tooLong :=
        Stderr ("Error: " ++ messageOf pf (RangeError "Invalid string length")) in
      let fits (text : string) :=
        negb (Str.kStringMaxLength <? Str.jsLength text)%Z in
      if truthy (json o) then
        if fits (JSON.stringify c)
        then (Returned tt, mkWorld st' (console w ++ [Stdout (JSON.stringify c)]))
        else (Exited 1, mkWorld st' (console w ++ [tooLong]))
      else
        if fits ("Client ID:     " ++ clientId c) then
          if fits ("Client Secret: " ++ clientSecret c)
          then (Returned tt,
                mkWorld st'
                  (console w ++
                   [Stdout generatedHeader;
                    Stdout ("Client ID:     " ++ clientId c);
                    Stdout ("Client Secret: " ++ clientSecret c);
                    Stdout securityReminder]))
          else (Exited 1,
                mkWorld st'
                  (console w ++
                   [Stdout generatedHeader;
                    Stdout ("Client ID:     " ++ clientId c);
                    tooLong]))
        else (Exited 1, mkWorld st' (console w ++ [Stdout generatedHeader; tooLong]))
  | (Throw e, st') =>
      (Exited 1, mkWorld st' (console w ++ [Stderr ("Error: " ++ messageOf pf e)]))
  end.
Proof.
  intros H. unfold main, tryCatch, pbind. rewrite H. unfold lift.
  destruct (generateOAuthCredentials (Some (generatorOptions o)) (entropy w))
    as [[c|e] st']; [|reflexivity].
  cbv zeta. unfold makeString, throw, ret, console_log; cbn [entropy console].
  destruct (truthy (json o)).
  - destruct (Str.kStringMaxLength <? Str.jsLength (JSON.stringify c))%Z;
      reflexivity.
  - destruct (Str.kStringMaxLength <?
              Str.jsLength ("Client ID:     " ++ clientId c))%Z;
      cbn [negb entropy console]; [unfold console_error, process_exit; cbn [negb entropy console];
        rewrite <- ?app_assoc; reflexivity|].
    destruct (Str.kStringMaxLength <?
              Str.jsLength ("Client Secret: " ++ clientSecret c))%Z;
      cbn [negb entropy console]; unfold console_error, process_exit; cbn [negb entropy console];
        rewrite <- ?app_assoc; reflexivity.
Qed.

(** An exit inside [parseArgs] is not caught. *)
Lemma main_exited (pf : Platform) (argv : list string) (w w' : World) (code : Z) :
  parseArgs pf (skipn 2 argv) w = (Exited code, w') ->
  main pf argv w = (Exited code, w').
Proof. intros H. unfold main, tryCatch, pbind. now rewrite H. Qed.

(** X7.  [--help] or [-h] after complete settings prints the usage text
    and exits with status 0: the settings before it are not validated, the
    arguments after it are not read, and no credentials are generated. *)
Theorem main_help (pf : Platform)
    (node script flag : string) (pre rest : list string) (w : World) :
  Settings pre -> flag = "--help" \/ flag = "-h" ->
  main pf (node :: script :: pre ++ flag :: rest) w =
  (Exited 0, wrote w [Stdout helpText]).
Proof.
  intros S F. apply (main_exited pf); cbn [skipn].
  destruct (parseArgsFrom_settings pf pre S noCliOptions w) as (o & _ & C).
  unfold parseArgs; rewrite C.
  destruct F as [-> | ->]; reflexivity.
Qed.

Lemma main_help_witness :
  main samplePlatform ("node" :: "generate-oauth" :: ["--id-length"; "0"] ++ "--help" :: ["--bad"])
    sampleWorld =
  (Exited 0, wrote sampleWorld [Stdout helpText]).
Proof.
  apply (main_help samplePlatform "node" "generate-oauth" "--help" ["--id-length"; "0"] ["--bad"]
           sampleWorld); [repeat constructor | left; reflexivity].
Defined.

(** X8.  [--version] or [-v] after complete settings prints the version of
    the package, or "Version information not available" when it cannot be
    read, and exits with status 0 without generating anything. *)
Theorem main_version (pf : Platform)
    (node script flag : string) (pre rest : list string) (w : World) :
  Settings pre -> flag = "--version" \/ flag = "-v" ->
  main pf (node :: script :: pre ++ flag :: rest) w =
  (Exited 0,
   wrote w [Stdout (match versionText pf with
                    | Some text => text
                    | None => "Version information not available"
                    end)]).
Proof.
  intros S F. apply (main_exited pf); cbn [skipn].
  destruct (parseArgsFrom_settings pf pre S noCliOptions w) as (o & _ & C).
  unfold parseArgs; rewrite C.
  destruct F as [-> | ->]; cbn [parseArgsFrom String.eqb Ascii.eqb Bool.eqb orb];
    unfold showVersion; destruct (versionText pf); reflexivity.
Qed.

Lemma main_version_witness :
  main samplePlatform ("node" :: "generate-oauth" :: ["--json"] ++ "-v" :: []) sampleWorld =
  (Exited 0,
   wrote sampleWorld
     [Stdout (match versionText samplePlatform with
              | Some text => text
              | None => "Version information not available"
              end)]).
Proof.
  apply (main_version samplePlatform "node" "generate-oauth" "-v" ["--json"] [] sampleWorld);
    [repeat constructor | right; reflexivity].
Defined.

(** X9.  A word that is no option, met where an option is expected, stops
    the run: "Unknown option: ..." goes to the error stream, the hint to use
    --help to the output, the status is 1, and nothing is generated. *)
Theorem main_unknown_option (pf : Platform)
    (node script u : string) (pre rest : list string) (w : World) :
  Settings pre -> ~ In u knownFlags ->
  main pf (node :: script :: pre ++ u :: rest) w =
  (Exited 1,
   wrote w [Stderr ("Unknown option: " ++ u);
            Stdout "Use --help for usage information"]).
Proof.
  intros S N. apply (main_exited pf); cbn [skipn].
  destruct (parseArgsFrom_settings pf pre S noCliOptions w) as (o & _ & C).
  unfold parseArgs; rewrite C.
  now apply parseArgsFrom_unknown.
Qed.

Lemma main_unknown_option_witness :
  main samplePlatform ("node" :: "generate-oauth" :: ["-p"; "x"] ++ "--bad" :: ["--help"])
    sampleWorld =
  (Exited 1,
   wrote sampleWorld [Stderr ("Unknown option: " ++ "--bad");
                      Stdout "Use --help for usage information"]).
Proof.
  apply (main_unknown_option samplePlatform "node" "generate-oauth" "--bad" ["-p"; "x"] ["--help"]
           sampleWorld); [repeat constructor|].
  simpl. intros H.
  repeat (destruct H as [H|H]; [discriminate|]). exact H.
Defined.

(** X10.  The word after [--prefix], [-p] or [--encoding] is taken as the
    value as it stands, even when it reads like an option, and replaces an
    earlier setting of the same option; the other options keep what the
    settings before gave them. *)
Theorem parseArgs_value_verbatim (pf : Platform) (pre : list string) (v : string) (w : World) :
  Settings pre ->
  exists o,
    parseArgs pf pre w = (Returned o, w) /\
    let g := generatorOptions o in
    parseArgs pf (pre ++ ["--prefix"; v]) w =
    (Returned
       (mkCliOptions (json o)
          (mkOptions (VString v) (idLength g) (secretLength g) (encoding g))), w) /\
    parseArgs pf (pre ++ ["-p"; v]) w =
    (Returned
       (mkCliOptions (json o)
          (mkOptions (VString v) (idLength g) (secretLength g) (encoding g))), w) /\
    parseArgs pf (pre ++ ["--encoding"; v]) w =
    (Returned
       (mkCliOptions (json o)
          (mkOptions (idPrefix g) (idLength g) (secretLength g) (VString v))), w).
Proof.
  intros S.
  destruct (parseArgsFrom_settings pf pre S noCliOptions w) as (o & R & C).
  exists o; split; [exact R|].
  unfold parseArgs; rewrite !C. repeat split; reflexivity.
Qed.

Lemma parseArgs_value_verbatim_witness :
  exists o,
    parseArgs samplePlatform ["--prefix"; "a"] sampleWorld = (Returned o, sampleWorld) /\
    let g := generatorOptions o in
    parseArgs samplePlatform (["--prefix"; "a"] ++ ["--prefix"; "--help"]) sampleWorld =
    (Returned
       (mkCliOptions (json o)
          (mkOptions (VString "--help") (idLength g) (secretLength g) (encoding g))),
     sampleWorld) /\
    parseArgs samplePlatform (["--prefix"; "a"] ++ ["-p"; "--help"]) sampleWorld =
    (Returned
       (mkCliOptions (json o)
          (mkOptions (VString "--help") (idLength g) (secretLength g) (encoding g))),
     sampleWorld) /\
    parseArgs samplePlatform (["--prefix"; "a"] ++ ["--encoding"; "--help"]) sampleWorld =
    (Returned
       (mkCliOptions (json o)
          (mkOptions (idPrefix g) (idLength g) (secretLength g) (VString "--help"))),
     sampleWorld).
Proof.
  apply (parseArgs_value_verbatim samplePlatform ["--prefix"; "a"] "--help" sampleWorld).
  repeat constructor.
Defined.

(** X11.  An option that takes a value and comes last reads [undefined]:
    [--prefix], [-p] and [--encoding] then unset the option, so that its
    default applies whatever was set before, and [--id-length] and
    [--secret-length] set the length to NaN; none of them is reported by
    [parseArgs]. *)
Theorem parseArgs_missing_value (pf : Platform) (pre : list string) (w : World) :
  Settings pre ->
  exists o,
    parseArgs pf pre w = (Returned o, w) /\
    let g := generatorOptions o in
    parseArgs pf (pre ++ ["--prefix"]) w =
    (Returned
       (mkCliOptions (json o)
          (mkOptions VUndefined (idLength g) (secretLength g) (encoding g))), w) /\
    parseArgs pf (pre ++ ["-p"]) w =
    (Returned
       (mkCliOptions (json o)
          (mkOptions VUndefined (idLength g) (secretLength g) (encoding g))), w) /\
    parseArgs pf (pre ++ ["--encoding"]) w =
    (Returned
       (mkCliOptions (json o)
          (mkOptions (idPrefix g) (idLength g) (secretLength g) VUndefined)), w) /\
    parseArgs pf (pre ++ ["--id-length"]) w =
    (Returned
       (mkCliOptions (json o)
          (mkOptions (idPrefix g) (VNumber NaN) (secretLength g) (encoding g))), w) /\
    parseArgs pf (pre ++ ["--secret-length"]) w =
    (Returned
       (mkCliOptions (json o)
          (mkOptions (idPrefix g) (idLength g) (VNumber NaN) (encoding g))), w).
Proof.
  intros S.
  destruct (parseArgsFrom_settings pf pre S noCliOptions w) as (o & R & C).
  exists o; split; [exact R|].
  unfold parseArgs; rewrite !C. repeat split; reflexivity.
Qed.

Lemma parseArgs_missing_value_witness :
  exists o,
    parseArgs samplePlatform ["--prefix"; "a"] sampleWorld = (Returned o, sampleWorld) /\
    let g := generatorOptions o in
    parseArgs samplePlatform (["--prefix"; "a"] ++ ["--prefix"]) sampleWorld =
    (Returned
       (mkCliOptions (json o)
          (mkOptions VUndefined (idLength g) (secretLength g) (encoding g))),
     sampleWorld) /\
    parseArgs samplePlatform (["--prefix"; "a"] ++ ["-p"]) sampleWorld =
    (Returned
       (mkCliOptions (json o)
          (mkOptions VUndefined (idLength g) (secretLength g) (encoding g))),
     sampleWorld) /\
    parseArgs samplePlatform (["--prefix"; "a"] ++ ["--encoding"]) sampleWorld =
    (Returned
       (mkCliOptions (json o)
          (mkOptions (idPrefix g) (idLength g) (secretLength g) VUndefined)),
     sampleWorld) /\
    parseArgs samplePlatform (["--prefix"; "a"] ++ ["--id-length"]) sampleWorld =
    (Returned
       (mkCliOptions (json o)
          (mkOptions (idPrefix g) (VNumber NaN) (secretLength g) (encoding g))),
     sampleWorld) /\
    parseArgs samplePlatform (["--prefix"; "a"] ++ ["--secret-length"]) sampleWorld =
    (Returned
       (mkCliOptions (json o)
          (mkOptions (idPrefix g) (idLength g) (VNumber NaN) (encoding g))),
     sampleWorld).
Proof.
  apply (parseArgs_missing_value samplePlatform ["--prefix"; "a"] sampleWorld).
  repeat constructor.
Defined.






(** X14.  Whatever the arguments, [main] ends in one of three ways: it
    returns, or it exits with status 0, or it exits with status 1; no
    exception leaves it.  A run that exits with status 0 has drawn no
    random byte. *)
Theorem main_exit_status (pf : Platform) (argv : list string) (w : World) :
  (fst (main pf argv w) = Returned tt \/
   fst (main pf argv w) = Exited 0 \/
   fst (main pf argv w) = Exited 1) /\
  (fst (main pf argv w) = Exited 0 ->
   entropy (snd (main pf argv w)) = entropy w).
Proof.
  destruct (parseArgsFrom_outcome pf (skipn 2 argv) noCliOptions w)
    as [(o & Hf & Hs)|[Hc He]].
  - assert (H : parseArgs pf (skipn 2 argv) w = (Returned o, w)).
    { unfold parseArgs.
      destruct (parseArgsFrom pf (skipn 2 argv) noCliOptions w); simpl in *.
      now subst. }
    rewrite (main_parsed pf argv w o H).
    destruct (generateOAuthCredentials (Some (generatorOptions o)) (entropy w))
      as [[c|e] st']; cbv zeta;
      [destruct (truthy (json o));
       repeat match goal with
              | |- context [negb ?b] => destruct b; cbn [negb]
              end|];
      cbn [fst snd]; (split; [tauto | discriminate]).
  - destruct (parseArgsFrom pf (skipn 2 argv) noCliOptions w) as [r w'] eqn:E.
    simpl in Hc, He.
    assert (X : exists code, r = Exited code /\ (code = 0 \/ code = 1)%Z)
      by (destruct Hc as [-> | ->]; eexists; split; eauto).
    destruct X as (code & -> & Hcode).
    rewrite (main_exited pf argv w w' code E); simpl.
    split; [destruct Hcode as [-> | ->]; tauto | intros _; exact He].
Qed.

(* ------------------------------------------------------------------ *)
(** ** The JSON text of generated credentials *)



(* ------------------------------------------------------------------ *)
(** ** Lengths on the command line *)

Lemma digit_code (c : ascii) :
  ParseInt.isDigit c = true -> (48 <= N_of_ascii c <= 57)%N.
Proof.
  unfold ParseInt.isDigit; cbv zeta; intros H.
  apply andb_true_iff in H as [A B]; apply N.leb_le in A, B; lia.
Qed.

Lemma trimStart_digit (c : ascii) (s : string) :
  ParseInt.isDigit c = true ->
  ParseInt.trimStart (String c s) = String c s.
Proof.
  intros H; apply digit_code in H.
  assert (S1 : ParseInt.isSpace1 c = false).
  { unfold ParseInt.isSpace1; cbv zeta.
    destruct (N.leb_spec (N_of_ascii c) 13); [lia|].
    destruct (N.eqb_spec (N_of_ascii c) 32); [lia|].
    now rewrite andb_false_r. }
  assert (S2 : forall d, ParseInt.isSpace2 c d = false).
  { intros d; unfold ParseInt.isSpace2.
    destruct (N.eqb_spec (N_of_ascii c) 194); [lia | reflexivity]. }
  assert (S3 : forall d e, ParseInt.isSpace3 c d e = false).
  { intros d e; unfold ParseInt.isSpace3; cbv zeta.
    destruct (N.eqb_spec (N_of_ascii c) 225); [lia|].
    destruct (N.eqb_spec (N_of_ascii c) 226); [lia|].
    destruct (N.eqb_spec (N_of_ascii c) 227); [lia|].
    destruct (N.eqb_spec (N_of_ascii c) 239); [lia|]. reflexivity. }
  cbn [ParseInt.trimStart]. rewrite S1.
  destruct s as [|d s]; [reflexivity|]. rewrite S2.
  destruct s as [|e s]; [reflexivity|]. now rewrite S3.
Qed.

Lemma leadingDigits_append (digits suffix : string) :
  Str.all ParseInt.isDigit digits = true ->
  match suffix with
  | String c _ => ParseInt.isDigit c = false
  | EmptyString => True
  end ->
  ParseInt.leadingDigits (digits ++ suffix) = digits.
Proof.
  intros D S. induction digits as [|c digits IH]; simpl in *.
  - destruct suffix as [|c s]; [reflexivity|]. simpl; now rewrite S.
  - apply andb_true_iff in D as [Dc Dd]. now rewrite Dc, (IH Dd).
Qed.

Lemma decimal_bound (digits : string) :
  Str.all ParseInt.isDigit digits = true ->
  forall acc : Z,
    (0 <= acc)%Z ->
    (0 <= ParseInt.decimal acc digits
     < (acc + 1) * 10 ^ Z.of_nat (String.length digits))%Z.
Proof.
  induction digits as [|c digits IH]; intros D acc Hacc.
  - cbn [ParseInt.decimal String.length]. change (10 ^ Z.of_nat 0)%Z with 1%Z. lia.
  - cbn [Str.all] in D. apply andb_true_iff in D as [Dc Dd].
    pose proof (digit_code c Dc) as Hc.
    cbn [ParseInt.decimal String.length].
    assert (V : (0 <= ParseInt.digitValue c <= 9)%Z)
      by (unfold ParseInt.digitValue; lia).
    specialize (IH Dd (10 * acc + ParseInt.digitValue c)%Z ltac:(lia)).
    rewrite Nat2Z.inj_succ, Z.pow_succ_r by lia.
    assert (P : (0 < 10 ^ Z.of_nat (String.length digits))%Z)
      by (apply Z.pow_pos_nonneg; lia).
    nia.
Qed.

(** Up to 15 decimal digits denote an integer a number holds exactly. *)
Lemma nearestDouble_digits (digits : string) :
  Str.all ParseInt.isDigit digits = true -> String.length digits <= 15 ->
  ParseInt.nearestDouble (ParseInt.decimal 0 digits) =
  ofZ (ParseInt.decimal 0 digits).
Proof.
  intros D Len. unfold ParseInt.nearestDouble.
  pose proof (decimal_bound digits D 0%Z ltac:(lia)) as B.
  assert (P : (10 ^ Z.of_nat (String.length digits) <= 10 ^ 15)%Z)
    by (apply Z.pow_le_mono_r; lia).
  assert (Q : (10 ^ 15 < 2 ^ 53)%Z) by reflexivity.
  destruct (Z.ltb_spec (ParseInt.decimal 0 digits) (2 ^ 53)); [reflexivity | lia].
Qed.

(** [parseInt] on a text that starts with decimal digits. *)
Lemma parseInt_digits (digits suffix : string) :
  digits <> "" -> Str.all ParseInt.isDigit digits = true ->
  String.length digits <= 15 ->
  match suffix with
  | String c _ => ParseInt.isDigit c = false
  | EmptyString => True
  end ->
  ParseInt.parseInt (digits ++ suffix) = ofZ (ParseInt.decimal 0 digits).
Proof.
  intros N D Len S.
  pose proof (nearestDouble_digits digits D Len) as ND.
  destruct digits as [|c digits]; [contradiction|].
  pose proof D as D'. simpl in D'. apply andb_true_iff in D' as [Dc _].
  unfold ParseInt.parseInt.
  change (String c digits ++ suffix) with (String c (digits ++ suffix)).
  rewrite (trimStart_digit c _ Dc).
  assert (Em : Ascii.eqb c "-" = false)
    by (destruct (Ascii.eqb_spec c "-") as [->|]; [discriminate | reflexivity]).
  assert (Ep : Ascii.eqb c "+" = false)
    by (destruct (Ascii.eqb_spec c "+") as [->|]; [discriminate | reflexivity]).
  rewrite Em, Ep; cbn [orb].
  change (String c (digits ++ suffix)) with (String c digits ++ suffix).
  rewrite (leadingDigits_append _ _ D S).
  exact ND.
Qed.

(** X16.  The value of [--id-length] or [--secret-length] is read as far as
    its leading decimal digits go and the rest is dropped without a word:
    "12abc" sets 12 and "1.5" sets 1.  (At most 15 digits, which a number
    holds exactly.) *)
Theorem parseArgs_length_digits (pf : Platform)
    (pre : list string) (digits suffix : string) (w : World) :
  Settings pre ->
  digits <> "" -> Str.all ParseInt.isDigit digits = true ->
  String.length digits <= 15 ->
  match suffix with
  | String c _ => ParseInt.isDigit c = false
  | EmptyString => True
  end ->
  exists o,
    parseArgs pf pre w = (Returned o, w) /\
    let g := generatorOptions o in
    let n := VNumber (ofZ (ParseInt.decimal 0 digits)) in
    parseArgs pf (pre ++ ["--id-length"; digits ++ suffix]) w =
    (Returned
       (mkCliOptions (json o)
          (mkOptions (idPrefix g) n (secretLength g) (encoding g))), w) /\
    parseArgs pf (pre ++ ["--secret-length"; digits ++ suffix]) w =
    (Returned
       (mkCliOptions (json o)
          (mkOptions (idPrefix g) (idLength g) n (encoding g))), w).
Proof.
  intros S N D Len Suf.
  destruct (parseArgsFrom_settings pf pre S noCliOptions w) as (o & R & C).
  exists o; split; [exact R|].
  unfold parseArgs; rewrite !C.
  cbn [parseArgsFrom String.eqb Ascii.eqb Bool.eqb orb andb].
  unfold ParseInt.parseIntArg. rewrite (parseInt_digits digits suffix N D Len Suf).
  split; reflexivity.
Qed.

Lemma parseArgs_length_digits_witness :
  exists o,
    parseArgs samplePlatform ["--json"] sampleWorld = (Returned o, sampleWorld) /\
    let g := generatorOptions o in
    let n := VNumber (ofZ (ParseInt.decimal 0 "1")) in
    parseArgs samplePlatform (["--json"] ++ ["--id-length"; "1" ++ ".5"]) sampleWorld =
    (Returned
       (mkCliOptions (json o)
          (mkOptions (idPrefix g) n (secretLength g) (encoding g))), sampleWorld) /\
    parseArgs samplePlatform (["--json"] ++ ["--secret-length"; "1" ++ ".5"])
      sampleWorld =
    (Returned
       (mkCliOptions (json o)
          (mkOptions (idPrefix g) (idLength g) n (encoding g))), sampleWorld).
Proof.
  apply (parseArgs_length_digits samplePlatform ["--json"] "1" ".5" sampleWorld);
    [repeat constructor | discriminate | reflexivity | simpl; lia | reflexivity].
Defined.

(* ------------------------------------------------------------------ *)
(** ** [generateSafeCredentials] *)

(** X17.  [generateSafeCredentials] never throws.  It returns the pair the
    generator returns, writing nothing; or, when validation fails, it
    writes "Failed to generate credentials: " and the message to the error
    stream and returns [null], with no random byte drawn; or, when the
    platform refuses a size (too many random bytes, or a text too long),
    it writes the platform's message in the same way and returns [null],
    with the entropy pool where the generator left it. *)
Theorem generateSafeCredentials_total
    (pf : Platform) (o : OAuthCredentialsOptions) (w : World) :
  (exists c st',
      generateOAuthCredentials (Some o) (entropy w) = (Normal c, st') /\
      generateSafeCredentials pf o w =
      (Returned (Some c), mkWorld st' (console w))) \/
  (exists message,
      generateOAuthCredentials (Some o) (entropy w) =
      (Throw (Error message), entropy w) /\
      generateSafeCredentials pf o w =
      (Returned None,
       wrote w [Stderr ("Failed to generate credentials: " ++ message)])) \/
  (exists e st',
      (forall message, e <> Error message) /\
      generateOAuthCredentials (Some o) (entropy w) = (Throw e, st') /\
      generateSafeCredentials pf o w =
      (Returned None,
       mkWorld st'
         (console w ++
          [Stderr ("Failed to generate credentials: " ++ messageOf pf e)]))).
Proof.
  unfold generateSafeCredentials, tryCatch, pbind, lift.
  destruct (generateOAuthCredentials_cases o (entropy w))
    as [[_ R]|[(_ & _ & R)|[(_ & _ & _ & R)|[(_ & _ & _ & _ & R)|S]]]];
    try (right; left; eexists; split; [exact R|]; rewrite R; reflexivity).
  destruct S as (p & n1 & L1 & n2 & L2 & enc & _ & _ & _ & _ & _ & _ & A).
  rewrite A.
  pose proof (NoError_assemble p n1 n2 enc (entropy w)) as N.
  destruct (assemble p n1 n2 enc (entropy w)) as [[c|e] st'].
  - left; exists c, st'; split; reflexivity.
  - right; right; exists e, st'. split; [|split; reflexivity].
    intros message ->. now apply (N message).
Qed.
